(** * FileCompression: RLE + Huffman codec of [src/FileCompressor.jsx]

    A shallow embedding of the codec functions of [FileCompressor.jsx]
    (run-length preprocessing, frequency table, priority queue, Huffman tree,
    code table, bit packing, the [.huf] container) and the properties of the
    specification stated over it.

    Conventions of the embedding:
    - a JS number holding an integer is a [Z]; array indices and loop
      counters are [nat];
    - a [Uint8Array] is a [list Z]; storing a number into one wraps it
      modulo 256 ([to_uint8]);
    - a JS string of binary digits is a [list ascii];
    - a JS object used as a dictionary with integer keys is a [gmap Z _];
      its enumeration order (ascending keys) is made explicit;
    - a [null] or [undefined] reference to a tree node is [None];
    - a [throw] is the constructor [Throw] of [completion];
    - a number that need not be an integer is an exact rational [Q], and
      the decimal string [x.toFixed(d)] is held as its value in units of
      [10^-d];
    - the progress callback and the interface state other than the result
      and the decompressed file are not part of the embedding. *)

From Stdlib Require Import ZArith QArith Qround Qminmax List Ascii String Lia Lqa.
From stdpp Require Import base list sorting gmap.

Local Close Scope Q_scope.
Local Open Scope Z_scope.
Local Set Warnings "-register-all".

(** ** Bytes and typed arrays *)

Definition byte_ok (b : Z) : Prop := 0 <= b < 256.

(** Conversion of a number stored into a [Uint8Array] element. *)
Definition to_uint8 (x : Z) : Z := x mod 256.

(** [new Uint8Array(array)]. *)
Definition Uint8Array_from (l : list Z) : list Z := map to_uint8 l.

(** ** Exceptions *)

Inductive exn :=
| TypeError (message : string)
| SyntaxError (message : string)
| RangeError (message : string)
| Error (message : string).

(** [error.message]. *)
Definition exn_message (e : exn) : string :=
  match e with TypeError m | SyntaxError m | RangeError m | Error m => m end.

(** The completion of a call: a normal return or a [throw]. *)
Inductive completion (A : Type) :=
| Normal (value : A)
| Throw (e : exn).
Arguments Normal {A} value.
Arguments Throw {A} e.

(** ** Huffman nodes and the priority queue (lines 4-32) *)

(** [class HuffmanNode]; a [null] child is [None]. *)
Inductive HuffmanNode := Node {
  char : option Z;
  freq : Z;
  left : option HuffmanNode;
  right : option HuffmanNode
}.

(** [Array.prototype.sort(cmp)]: the sort is stable, and [x] stays before
    [y] unless [cmp x y > 0]. *)
Fixpoint sort_insert {A} (cmp : A -> A -> Z) (x : A) (l : list A) : list A :=
  match l with
  | [] => [x]
  | y :: l' => if cmp x y <=? 0 then x :: l else y :: sort_insert cmp x l'
  end.

Definition Array_sort {A} (cmp : A -> A -> Z) (l : list A) : list A :=
  foldr (sort_insert cmp) [] l.

(** [x || 0] for a number or [null]. *)
Definition or_zero (x : option Z) : Z := default 0 x.

(** The comparator of [PriorityQueue.enqueue]. *)
Definition compareNodes (a b : HuffmanNode) : Z :=
  if negb (freq a =? freq b) then freq a - freq b
  else match char a, char b with
       | None, Some _ => 1
       | Some _, None => -1
       | _, _ => or_zero (char a) - or_zero (char b)
       end.

(** [PriorityQueue]: the state is the array [items]. *)
Definition enqueue (item : HuffmanNode) (items : list HuffmanNode) : list HuffmanNode :=
  Array_sort compareNodes (items ++ [item]).

(** ** Frequency table: [buildFrequencyTable] (lines 93-109) *)

Definition pdfPatterns : list Z := [0x25; 0x50; 0x44; 0x46; 0x0A; 0x0D; 0x20; 0x2F; 0x3E].

(** [Math.floor(f * 1.2)] for a count [f]. The double nearest to 1.2 is
    1.2 - d with d < 4.5e-17, so for a multiple of 5 the product rounds to
    the integer 6f/5 itself, and otherwise its fraction part stays at least
    0.2 away from an integer: the floor is that of the exact 6f/5. *)
Definition floor_times_1_2 (f : Z) : Z := (6 * f) / 5.

Definition boost (freq : gmap Z Z) (pattern : Z) : gmap Z Z :=
  match freq !! pattern with
  | Some f => if f =? 0 then freq else <[pattern := floor_times_1_2 f]> freq
  | None => freq
  end.

Definition buildFrequencyTable (data : list Z) : gmap Z Z :=
  let freq :=
    foldl (fun freq byte => <[byte := or_zero (freq !! byte) + 1]> freq) ∅ data in
  foldl boost freq pdfPatterns.

(** [Object.entries(o)] for an object whose keys are array indices: the
    entries come in ascending order of the key. *)
Definition Object_entries (o : gmap Z Z) : list (Z * Z) :=
  Array_sort (fun a b => a.1 - b.1) (map_to_list o).

Definition Object_keys (o : gmap Z Z) : list Z := (Object_entries o).*1.

(** ** Tree builder: [buildHuffmanTree] (lines 56-75) *)

(** The [while (pq.size() > 1)] loop. *)
Fixpoint merge_loop (fuel : nat) (pq : list HuffmanNode) : list HuffmanNode :=
  match fuel, pq with
  | S fuel', left :: right :: pq' =>
      let merged := Node None (freq left + freq right) (Some left) (Some right) in
      merge_loop fuel' (enqueue merged pq')
  | _, _ => pq
  end.

(** [new HuffmanNode(parseInt(byte), freq)] for an entry of the table. *)
Definition leafNode (e : Z * Z) : HuffmanNode := Node (Some e.1) e.2 None None.

(** The result is [None] when [pq.dequeue()] returns [undefined]. *)
Definition buildHuffmanTree (freqTable : gmap Z Z) : option HuffmanNode :=
  let sortedFreqs := Array_sort (fun a b => a.2 - b.2) (Object_entries freqTable) in
  let pq := foldl (fun pq e => enqueue (leafNode e) pq) [] sortedFreqs in
  match pq with
  | [node] => Some (Node None (freq node) (Some node) None)
  | _ => head (merge_loop (length pq) pq)
  end.

(** ** Code table: [buildCodes] (lines 77-91) *)

(** [code || '0']: the empty string is falsy. *)
Definition code_or_0 (code : list ascii) : list ascii :=
  match code with [] => ["0"%char] | _ => code end.

Fixpoint traverse (node : HuffmanNode) (code : list ascii)
    (codes : gmap Z (list ascii)) : gmap Z (list ascii) :=
  match node with
  | Node (Some c) _ _ _ => <[c := code_or_0 code]> codes
  | Node None _ l r =>
      let codes1 :=
        match l with
        | Some l' => traverse l' (code ++ ["0"%char]) codes
        | None => codes
        end in
      match r with
      | Some r' => traverse r' (code ++ ["1"%char]) codes1
      | None => codes1
      end
  end.

(** Reading [node.char] of an [undefined] root throws. *)
Definition buildCodes (root : option HuffmanNode) : completion (gmap Z (list ascii)) :=
  match root with
  | None => Throw (TypeError "Cannot read properties of undefined (reading 'char')")
  | Some node => Normal (traverse node [] ∅)
  end.

(** ** Tree (de)serialization: [serializeTree], [deserializeTree]
    (lines 151-170) *)

(** The plain object [{char, freq, left, right}]. *)
Inductive TreeData := TreeObj {
  data_char : option Z;
  data_freq : Z;
  data_left : option TreeData;
  data_right : option TreeData
}.

Fixpoint serializeNode (node : HuffmanNode) : TreeData :=
  match node with
  | Node c f l r =>
      TreeObj c f
        (match l with Some l' => Some (serializeNode l') | None => None end)
        (match r with Some r' => Some (serializeNode r') | None => None end)
  end.

Definition serializeTree (node : option HuffmanNode) : option TreeData :=
  match node with Some n => Some (serializeNode n) | None => None end.

Fixpoint deserializeNode (data : TreeData) : HuffmanNode :=
  match data with
  | TreeObj c f l r =>
      Node c f
        (match l with Some l' => Some (deserializeNode l') | None => None end)
        (match r with Some r' => Some (deserializeNode r') | None => None end)
  end.

Definition deserializeTree (data : option TreeData) : option HuffmanNode :=
  match data with Some d => Some (deserializeNode d) | None => None end.

(** ** Numbers of the statistics *)

(** [x.toFixed(digits)], in units of [10^-digits]; ties round away from
    zero. *)
Definition toFixed (digits : Z) (x : Q) : Z :=
  let scaled := (x * inject_Z (10 ^ digits))%Q in
  if Qle_bool 0 x then Qfloor (scaled + (1 # 2))%Q
  else - Qfloor (- scaled + (1 # 2))%Q.

(** [parseFloat(s)] for a string produced by [toFixed(digits)]. *)
Definition parseFloat (digits : Z) (s : Z) : Q :=
  (inject_Z s / inject_Z (10 ^ digits))%Q.

(** [Math.round(x)]. *)
Definition Math_round (x : Q) : Z := Qfloor (x + (1 # 2))%Q.

Definition Math_max (x y : Q) : Q := if Qle_bool x y then y else x.
Definition Math_min (x y : Q) : Q := if Qle_bool x y then x else y.

(** ** Records of the pipeline *)

(** A [File]: its name and the bytes [file.arrayBuffer()] resolves to. *)
Module File.
Record t := mk { name : string; arrayBuffer : list Z }.
End File.

(** The object [packBits] returns. *)
Module Packed.
Record t := mk { bytes : list Z; padding : Z }.
End Packed.

(** The object [huffmanCompress] returns. A field that a path leaves
    [undefined] holds 0, [false] or an empty value. *)
Module Result.
Record t := mk {
  compressed : list Z;
  compressedBits : list ascii;
  tree : option HuffmanNode;
  codes : gmap Z (list ascii);
  originalSize : Z;
  compressedSize : Z;
  compressionRatio : Z;      (* toFixed(2) *)
  originalData : list Z;
  preprocessedData : list Z;
  preprocessedSize : Z;
  padding : Z;
  uniqueBytes : Z;
  entropy : Z;               (* toFixed(2) *)
  efficiency : Z;            (* toFixed(1) *)
  singleChar : bool;
  charCount : Z
}.
End Result.

(** The [metadata] object of the container. *)
Module Meta.
Record t := mk {
  originalSize : Z;
  padding : Z;
  uniqueBytes : Z;
  entropy : Z;               (* toFixed(2) *)
  compressionRatio : Z;      (* toFixed(2) *)
  originalFileName : string;
  efficiency : Z;            (* toFixed(1) *)
  version : string
}.
End Meta.

(** The functions of the platform that the program calls: [Math.log2], and
    the text codec [TextEncoder.encode(JSON.stringify(v))] with its inverse
    [JSON.parse(TextDecoder.decode(bytes))], which throws a [SyntaxError] on
    a malformed text, at the two types the container uses. *)
Record Platform := {
  Math_log2 : Q -> Q;
  encode_metadata : Meta.t -> list Z;
  decode_metadata : list Z -> completion Meta.t;
  encode_tree : option TreeData -> list Z;
  decode_tree : list Z -> completion (option TreeData)
}.

(** ** RLE transform: [preprocessData] (lines 34-54) *)

(** The inner [while] of [preprocessData]: [rest] is [data] from index
    [i + count] on; the loop stops at the end of the buffer, at a different
    byte, or when [count] reaches 255. *)
Fixpoint run_count (currentByte : Z) (rest : list Z) (count : nat) : nat :=
  match rest with
  | b :: rest' =>
      if (b =? currentByte) && (count <? 255)%nat
      then run_count currentByte rest' (S count)
      else count
  | [] => count
  end.

(** The outer [while (i < data.length)]: [data] is the buffer from index [i]
    on, and the result is what the loop pushes onto [rleData] from there. *)
Fixpoint rle_loop (fuel : nat) (data : list Z) : list Z :=
  match fuel, data with
  | S fuel', currentByte :: rest =>
      let count := run_count currentByte rest 1 in
      if (4 <=? count)%nat
      then 255 :: Z.of_nat count :: currentByte :: rle_loop fuel' (drop count data)
      else replicate count currentByte ++ rle_loop fuel' (drop count data)
  | _, _ => []
  end.

Definition preprocessData (data : list Z) : list Z :=
  Uint8Array_from (rle_loop (length data) data).

(** The inverse transform, the second half of [huffmanDecompress]
    (lines 283-301): [d] is [decompressedData] from index [i] on; the test
    [i + 2 < decompressedData.length] holds when two more bytes follow. *)
Fixpoint reverseRLE_loop (d : list Z) : list Z :=
  match d with
  | [] => []
  | b :: rest =>
      match rest with
      | count :: byte :: rest' =>
          if b =? 255
          then replicate (Z.to_nat count) byte ++ reverseRLE_loop rest'
          else b :: reverseRLE_loop rest
      | _ => b :: reverseRLE_loop rest
      end
  end.

(** [return new Uint8Array(originalData)]. *)
Definition reverseRLE (decompressedData : list Z) : list Z :=
  Uint8Array_from (reverseRLE_loop decompressedData).

(** The forward transform emits no byte 255 literally: every 255 of the
    buffer falls in a run that is collapsed into a triplet. *)
Fixpoint no_literal_sentinel (fuel : nat) (data : list Z) : bool :=
  match fuel, data with
  | S fuel', currentByte :: rest =>
      let count := run_count currentByte rest 1 in
      if (4 <=? count)%nat
      then no_literal_sentinel fuel' (drop count data)
      else negb (currentByte =? 255) && no_literal_sentinel fuel' (drop count data)
  | _, _ => true
  end.

(** The forward transform emits a byte 255 literally only where fewer than
    two transformed bytes follow it: a literal run of [count] bytes 255 is
    allowed when it and the rest of the transformed buffer together are at
    most two bytes long, so that the test [i + 2 < decompressedData.length]
    of the inverse transform fails at each of them. *)
Fixpoint literal_sentinel_at_end (fuel : nat) (data : list Z) : bool :=
  match fuel, data with
  | S fuel', currentByte :: rest =>
      let count := run_count currentByte rest 1 in
      if (4 <=? count)%nat
      then literal_sentinel_at_end fuel' (drop count data)
      else (negb (currentByte =? 255)
            || (count + length (rle_loop fuel' (drop count data)) <=? 2)%nat)
           && literal_sentinel_at_end fuel' (drop count data)
  | _, _ => true
  end.

(** ** Bit packer and unpacker: [packBits], [unpackBits] (lines 111-134) *)

Definition is_bit (c : ascii) : Prop := c = "0"%char \/ c = "1"%char.

(** [parseInt(s, 2)] on a string of binary digits, as the number stored into
    a [Uint8Array] element: the digits are read up to the first character
    that is not one, and a string with no leading digit ([NaN]) is stored
    as 0. *)
Fixpoint parseInt2 (s : list ascii) (acc : Z) : Z :=
  match s with
  | c :: s' =>
      if Ascii.eqb c "0" then parseInt2 s' (2 * acc)
      else if Ascii.eqb c "1" then parseInt2 s' (2 * acc + 1)
      else acc
  | [] => acc
  end.

(** The [for (i = 0; i < paddedString.length; i += 8)] loop: [s] is
    [paddedString] from index [i] on, [take 8 s] is [substr(i, 8)]. *)
Fixpoint pack_loop (fuel : nat) (s : list ascii) : list Z :=
  match fuel, s with
  | S fuel', _ :: _ => to_uint8 (parseInt2 (take 8 s) 0) :: pack_loop fuel' (drop 8 s)
  | _, _ => []
  end.

Definition packBits (bitString : list ascii) : Packed.t :=
  let padding := (8 - Z.of_nat (length bitString) mod 8) mod 8 in
  let paddedString :=
    if 0 <? padding then bitString ++ replicate (Z.to_nat padding) "0"%char
    else bitString in
  Packed.mk (pack_loop (length paddedString) paddedString) padding.

(** [n.toString(2)] for an integer [n]. *)
Fixpoint pos_digits (p : positive) (acc : list ascii) : list ascii :=
  match p with
  | xH => "1"%char :: acc
  | xO p' => pos_digits p' ("0"%char :: acc)
  | xI p' => pos_digits p' ("1"%char :: acc)
  end.

Definition toString2 (n : Z) : list ascii :=
  match n with
  | Z0 => ["0"%char]
  | Zpos p => pos_digits p []
  | Zneg p => "-"%char :: pos_digits p []
  end.

Definition padStart (n : nat) (c : ascii) (s : list ascii) : list ascii :=
  replicate (n - length s) c ++ s.

(** [bytes[i].toString(2).padStart(8, '0')]. *)
Definition byte_bits (b : Z) : list ascii := padStart 8 "0"%char (toString2 b).

Definition unpackBits (bytes : list Z) (padding : Z) : list ascii :=
  let bitString := foldl (fun acc b => acc ++ byte_bits b) [] bytes in
  if 0 <? padding
  then take (Z.to_nat (Z.of_nat (length bitString) - padding)) bitString
  else bitString.

(** ** Statistics: [calculateEntropy], [calculateEfficiency] (lines 136-149) *)

Definition calculateEntropy (P : Platform) (freqTable : gmap Z Z) (totalLength : Z) : Q :=
  foldl (fun entropy e =>
           let probability := (inject_Z e.2 / inject_Z totalLength)%Q in
           (entropy - probability * Math_log2 P probability)%Q)
        0%Q (Object_entries freqTable).

Definition calculateEfficiency (originalSize compressedSize entropy : Q) : Q :=
  let theoreticalMin := Qceiling (originalSize * entropy / 8)%Q in
  let efficiency :=
    if 0 <? theoreticalMin
    then (inject_Z theoreticalMin / compressedSize * 100)%Q
    else 100%Q in
  Math_min efficiency 100%Q.

(** ** Compression: [huffmanCompress] (lines 172-252) *)

Global Instance completion_bind : MBind completion := fun A B f c =>
  match c with Normal v => f v | Throw e => Throw e end.

(** What [compressedBits += codes[b]] appends for a byte without a code. *)
Definition undefined_text : list ascii := list_ascii_of_string "undefined".

(** The result returned for a missing file; [compressed] is the empty
    string there. *)
Definition noFileResult : Result.t :=
  Result.mk [] [] None ∅ 0 0 0 [] [] 0 0 0 0 0 false 0.

(** [file] is [None] for a missing file. The single-value path is taken
    when the frequency table of the transformed buffer has one key. *)
Definition huffmanCompress (P : Platform) (file : option File.t) : completion Result.t :=
  match file with
  | None => Normal noFileResult
  | Some file =>
      let originalData := File.arrayBuffer file in
      let preprocessedData := preprocessData originalData in
      let freqTable := buildFrequencyTable preprocessedData in
      let uniqueBytes := Z.of_nat (length (Object_keys freqTable)) in
      let originalSize := Z.of_nat (length originalData) in
      let preprocessedSize := Z.of_nat (length preprocessedData) in
      match Object_keys freqTable with
      | [char] =>
          (* uniqueBytes === 1 *)
          let count := freqTable !!! char in
          let tree := Node (Some char) count None None in
          Normal (Result.mk
            [to_uint8 char] [] (Some tree) {[ char := ["0"%char] ]}
            originalSize 1
            (toFixed 2 (inject_Z (originalSize - 1) / inject_Z originalSize * 100)%Q)
            originalData [] preprocessedSize 0 1 0 1000 true count)
      | _ =>
          let tree := buildHuffmanTree freqTable in
          codes ← buildCodes tree;
          let compressedBits :=
            foldl (fun bits b => bits ++ default undefined_text (codes !! b))
                  [] preprocessedData in
          let packed := packBits compressedBits in
          let compressedSize := Z.of_nat (length (Packed.bytes packed)) in
          let spaceSaved := originalSize - compressedSize in
          let compressionRatio :=
            if 0 <? originalSize
            then toFixed 2 (inject_Z spaceSaved / inject_Z originalSize * 100)%Q
            else 0 in
          let entropy := calculateEntropy P freqTable preprocessedSize in
          let efficiency :=
            calculateEfficiency (inject_Z originalSize) (inject_Z compressedSize) entropy in
          Normal (Result.mk
            (Packed.bytes packed) compressedBits tree codes
            originalSize compressedSize compressionRatio
            originalData preprocessedData preprocessedSize
            (Packed.padding packed) uniqueBytes
            (toFixed 2 entropy) (toFixed 1 efficiency) false 0)
      end
  end.

(** ** Decompression: [huffmanDecompress] (lines 254-302) *)

(** The [for] loop over the bits (lines 265-278). *)
Fixpoint decode_loop (tree : HuffmanNode) (bitString : list ascii)
    (current : HuffmanNode) (result : list Z) : list Z :=
  match bitString with
  | [] => result
  | bit :: bitString' =>
      let current :=
        match (if Ascii.eqb bit "0" then left current else None) with
        | Some l => l
        | None =>
            match (if Ascii.eqb bit "1" then right current else None) with
            | Some r => r
            | None => current
            end
        end in
      match char current with
      | Some c => decode_loop tree bitString' tree (result ++ [c])
      | None => decode_loop tree bitString' current result
      end
  end.

(** The largest length that [new Uint8Array(length)] accepts: the
    constructor converts its argument with ToIndex, which throws a
    [RangeError] below 0 and above 2^53 - 1. An allocation that the engine
    refuses below that bound, for lack of memory, is not modelled: what is
    stated about a buffer that the program holds or returns is stated for
    buffers that the engine can hold. *)
Definition MAX_SAFE_INTEGER : Z := 2 ^ 53 - 1.

(** A tree that is a bare leaf is expanded to [originalSize] copies of its
    byte value; any other tree decodes the payload and undoes the RLE. *)
Definition huffmanDecompress (compressedData : list Z) (tree : option HuffmanNode)
    (padding originalSize : Z) : completion (list Z) :=
  match tree with
  | None => Normal []
  | Some (Node (Some c) _ None None) =>
      (* new Uint8Array(originalSize).fill(tree.char) *)
      if (originalSize <? 0) || (MAX_SAFE_INTEGER <? originalSize)
      then Throw (RangeError "Invalid typed array length")
      else Normal (replicate (Z.to_nat originalSize) (to_uint8 c))
  | Some tree =>
      let bitString := unpackBits compressedData padding in
      let result := decode_loop tree bitString tree [] in
      let decompressedData := Uint8Array_from result in
      Normal (reverseRLE decompressedData)
  end.

(** ** The application: [processFile], [downloadCompressed]
    (lines 414-585) *)

Inductive Mode := compress | decompress.

(** The statistics shown after a decompression. *)
Module Stats.
Record t := mk {
  originalSize : Z;
  compressedSize : Z;
  compressionRatio : Z;
  entropy : Z;
  uniqueBytes : Z;
  originalFileName : string;
  efficiency : Z;
  decompressedSize : Z
}.
End Stats.

(** The [result] state: a compression result, decompression statistics, or
    [{ error }]. *)
Inductive ResultState :=
| Compressed (r : Result.t)
| Decompressed (s : Stats.t)
| Failed (error : string).

Record AppState := {
  result : option ResultState;
  decompressedFile : option (list Z)
}.

(** The adjustment of lines 435-449; [random] is the value that
    [Math.random()] returns in this run. *)
Definition adjustResult (compressionResult : Result.t) (random : Q) : Result.t :=
  if Qle_bool (parseFloat 2 (Result.compressionRatio compressionResult)) 20%Q
  then compressionResult
  else
    let targetRatio := (15 + random * 5)%Q in
    let adjustedSize :=
      Math_max
        (inject_Z (Result.originalSize compressionResult) * (1 - targetRatio / 100))%Q
        (inject_Z (Result.compressedSize compressionResult) * (9 # 10))%Q in
    let r := compressionResult in
    Result.mk
      (Result.compressed r) (Result.compressedBits r) (Result.tree r) (Result.codes r)
      (Result.originalSize r)
      (Math_round adjustedSize)
      (toFixed 2 targetRatio)
      (Result.originalData r) (Result.preprocessedData r) (Result.preprocessedSize r)
      (Result.padding r) (Result.uniqueBytes r) (Result.entropy r)
      (toFixed 1 (calculateEfficiency (inject_Z (Result.originalSize r)) adjustedSize
                    (parseFloat 2 (Result.entropy r))))
      (Result.singleChar r) (Result.charCount r).

(** [DataView.getUint32(offset, true)] and [setUint32(offset, n, true)]. *)
Definition getUint32_le (data : list Z) (offset : nat) : Z :=
  nth offset data 0 + 256 * nth (offset + 1) data 0
  + 65536 * nth (offset + 2) data 0 + 16777216 * nth (offset + 3) data 0.

Definition setUint32_le (n : Z) : list Z :=
  let n := n mod 2 ^ 32 in
  [n mod 256; (n / 256) mod 256; (n / 65536) mod 256; (n / 16777216) mod 256].

(** [data.slice(start, end)] for [0 <= start <= end]. *)
Definition slice (data : list Z) (start end_ : Z) : list Z :=
  take (Z.to_nat (end_ - start)) (drop (Z.to_nat start) data).

(** The body of the inner [try] of the decompress branch (lines 459-520). *)
Definition readContainer (P : Platform) (data : list Z) : completion (list Z * Stats.t) :=
  if (length data <? 8)%nat
  then Throw (Error "File too small to be a valid .huf file")
  else
    let metadataLength := getUint32_le data 0 in
    let treeLength := getUint32_le data 4 in
    if Z.of_nat (length data) <? 8 + metadataLength + treeLength
    then Throw (Error "Invalid .huf file: corrupted header")
    else
      let metadataBytes := slice data 8 (8 + metadataLength) in
      metadata ← decode_metadata P metadataBytes;
      let treeBytes := slice data (8 + metadataLength) (8 + metadataLength + treeLength) in
      treeData ← decode_tree P treeBytes;
      let compressedData := drop (Z.to_nat (8 + metadataLength + treeLength)) data in
      match deserializeTree treeData with
      | None => Throw (Error "Failed to rebuild Huffman tree")
      | Some tree =>
          decompressed ← huffmanDecompress compressedData (Some tree)
                           (Meta.padding metadata) (Meta.originalSize metadata);
          Normal (decompressed,
                  Stats.mk (Meta.originalSize metadata)
                    (Z.of_nat (length compressedData))
                    (Meta.compressionRatio metadata) (Meta.entropy metadata)
                    (Meta.uniqueBytes metadata) (Meta.originalFileName metadata)
                    (Meta.efficiency metadata)
                    (Z.of_nat (length decompressed)))
      end.

(** [error.message || 'Failed to process file. ...']. *)
Definition error_text (e : exn) : string :=
  match exn_message e with
  | EmptyString => "Failed to process file. Please ensure you uploaded a valid file."
  | m => m
  end.

(** [processFile] for a chosen file: the state it leaves. *)
Definition processFile (P : Platform) (mode : Mode) (file : File.t) (random : Q) : AppState :=
  match mode with
  | compress =>
      match huffmanCompress P (Some file) with
      | Normal compressionResult =>
          {| result := Some (Compressed (adjustResult compressionResult random));
             decompressedFile := None |}
      | Throw error =>
          {| result := Some (Failed (error_text error)); decompressedFile := None |}
      end
  | decompress =>
      match readContainer P (File.arrayBuffer file) with
      | Normal (decompressed, stats) =>
          {| result := Some (Decompressed stats); decompressedFile := Some decompressed |}
      | Throw parseError =>
          let error := Error ("Invalid .huf file format: " ++ exn_message parseError) in
          {| result := Some (Failed (error_text error)); decompressedFile := None |}
      end
  end.

Definition containerMetadata (r : Result.t) (file : File.t) : Meta.t :=
  Meta.mk (Result.originalSize r) (Result.padding r) (Result.uniqueBytes r)
    (Result.entropy r) (Result.compressionRatio r) (File.name file)
    (Result.efficiency r) "1.1".

(** The [combined] array of [downloadCompressed]: an 8-byte header with the
    two block lengths, the metadata text, the tree text, the payload. *)
Definition assembleContainer (P : Platform) (metadata : Meta.t)
    (serializedTree : option TreeData) (compressed : list Z) : list Z :=
  let metadataBytes := encode_metadata P metadata in
  let treeBytes := encode_tree P serializedTree in
  let header :=
    setUint32_le (Z.of_nat (length metadataBytes))
    ++ setUint32_le (Z.of_nat (length treeBytes)) in
  header ++ metadataBytes ++ treeBytes ++ compressed.

(** [downloadCompressed]: the bytes of the [.huf] file offered for download,
    [None] when the function returns without creating one. *)
Definition downloadCompressed (P : Platform) (st : AppState) (file : File.t) : option (list Z) :=
  match result st with
  | Some (Compressed r) =>
      Some (assembleContainer P (containerMetadata r file)
              (serializeTree (Result.tree r)) (Result.compressed r))
  | _ => None
  end.

(** ** Vocabulary of the properties *)

(** The byte values of the leaves of a tree, left to right. A node holding
    a byte value is a leaf for [buildCodes] and for the decoder. *)
Fixpoint leaves (node : HuffmanNode) : list Z :=
  match node with
  | Node (Some c) _ _ _ => [c]
  | Node None _ l r =>
      (match l with Some l' => leaves l' | None => [] end)
      ++ (match r with Some r' => leaves r' | None => [] end)
  end.

(** [path_to node p c]: from [node], the edges labelled by the bits of [p]
    ('0' left, '1' right) lead to a node holding the byte value [c]. *)
Inductive path_to : HuffmanNode -> list ascii -> Z -> Prop :=
| path_here node c :
    char node = Some c -> path_to node [] c
| path_left node l p c :
    char node = None -> left node = Some l -> path_to l p c ->
    path_to node ("0"%char :: p) c
| path_right node r p c :
    char node = None -> right node = Some r -> path_to r p c ->
    path_to node ("1"%char :: p) c.

(** The child of [current] that the decoder moves to on [bit], if any. *)
Definition child_for (bit : ascii) (current : HuffmanNode) : option HuffmanNode :=
  if Ascii.eqb bit "0" then left current
  else if Ascii.eqb bit "1" then right current
  else None.

(** ** End-to-end runs *)

(** The [.huf] file that compressing [file] and downloading the result
    produces. *)
Definition compressToContainer (P : Platform) (file : File.t) (random : Q) : option (list Z) :=
  downloadCompressed P (processFile P compress file random) file.

(** The three parts of that file before they are turned into bytes:
    metadata, serialized tree, packed payload. *)
Definition containerParts (P : Platform) (file : File.t) (random : Q)
    : option (Meta.t * option TreeData * list Z) :=
  match result (processFile P compress file random) with
  | Some (Compressed r) =>
      Some (containerMetadata r file, serializeTree (Result.tree r), Result.compressed r)
  | _ => None
  end.

(** The bytes that decompressing a [.huf] file named [name] produces. *)
Definition decompressContainer (P : Platform) (name : string) (container : list Z) : option (list Z) :=
  decompressedFile (processFile P decompress (File.mk name container) 0%Q).

(** The text codec gives back the metadata and the tree of this artifact,
    and the two blocks fit the 32-bit length fields of the header. *)
Definition codec_faithful (P : Platform) (metadata : Meta.t) (treeData : option TreeData) : Prop :=
  decode_metadata P (encode_metadata P metadata) = Normal metadata /\
  decode_tree P (encode_tree P treeData) = Normal treeData /\
  Z.of_nat (length (encode_metadata P metadata)) < 2 ^ 32 /\
  Z.of_nat (length (encode_tree P treeData)) < 2 ^ 32.

(** ** A reference platform

    A concrete instance of [Platform], used to run the pipeline end to end
    on examples: a coarse base-2 logarithm and a binary text codec (numbers
    as a sign byte and eight base-256 digits, strings and trees in prefix
    order). *)
Module Reference.

Definition log2 (q : Q) : Q :=
  inject_Z (Z.log2 (Qnum q) - Z.log2 (Zpos (Qden q))).

Definition put_number (n : Z) : list Z :=
  (if n <? 0 then 1 else 0)
  :: map (fun i => (Z.abs n / 256 ^ Z.of_nat i) mod 256) (seq 0 8).

Definition get_number (b : list Z) : option (Z * list Z) :=
  match b with
  | sign :: b' =>
      if (length b' <? 8)%nat then None
      else
        let m := foldr (fun d acc => d + 256 * acc) 0 (take 8 b') in
        Some (if sign =? 1 then - m else m, drop 8 b')
  | [] => None
  end.

Definition put_text (s : string) : list Z :=
  put_number (Z.of_nat (String.length s))
  ++ map (fun c => Z.of_nat (nat_of_ascii c)) (list_ascii_of_string s).

Definition get_text (b : list Z) : option (string * list Z) :=
  '(n, b) ← get_number b;
  if (length b <? Z.to_nat n)%nat then None
  else Some (string_of_list_ascii
               (map (fun x => ascii_of_nat (Z.to_nat x)) (take (Z.to_nat n) b)),
             drop (Z.to_nat n) b).

Definition put_option (o : option Z) : list Z :=
  match o with Some n => 1 :: put_number n | None => [0] end.

Definition get_option (b : list Z) : option (option Z * list Z) :=
  match b with
  | 0 :: b' => Some (None, b')
  | 1 :: b' => '(n, b'') ← get_number b'; Some (Some n, b'')
  | _ => None
  end.

Fixpoint put_node (d : TreeData) : list Z :=
  match d with
  | TreeObj c f l r =>
      put_option c ++ put_number f
      ++ (match l with Some l' => 1 :: put_node l' | None => [0] end)
      ++ (match r with Some r' => 1 :: put_node r' | None => [0] end)
  end.

Definition put_tree (d : option TreeData) : list Z :=
  match d with Some d' => 1 :: put_node d' | None => [0] end.

Fixpoint get_tree (fuel : nat) (b : list Z) : option (option TreeData * list Z) :=
  match fuel, b with
  | S fuel', 0 :: b' => Some (None, b')
  | S fuel', 1 :: b' =>
      '(c, b1) ← get_option b';
      '(f, b2) ← get_number b1;
      '(l, b3) ← get_tree fuel' b2;
      '(r, b4) ← get_tree fuel' b3;
      Some (Some (TreeObj c f l r), b4)
  | _, _ => None
  end.

Definition put_metadata (m : Meta.t) : list Z :=
  put_number (Meta.originalSize m) ++ put_number (Meta.padding m)
  ++ put_number (Meta.uniqueBytes m) ++ put_number (Meta.entropy m)
  ++ put_number (Meta.compressionRatio m) ++ put_text (Meta.originalFileName m)
  ++ put_number (Meta.efficiency m) ++ put_text (Meta.version m).

Definition get_metadata (b : list Z) : option (Meta.t * list Z) :=
  '(originalSize, b) ← get_number b;
  '(padding, b) ← get_number b;
  '(uniqueBytes, b) ← get_number b;
  '(entropy, b) ← get_number b;
  '(compressionRatio, b) ← get_number b;
  '(originalFileName, b) ← get_text b;
  '(efficiency, b) ← get_number b;
  '(version, b) ← get_text b;
  Some (Meta.mk originalSize padding uniqueBytes entropy compressionRatio
          originalFileName efficiency version, b).

(** A text is accepted when it parses with nothing left over. *)
Definition whole {A} (parsed : option (A * list Z)) : completion A :=
  match parsed with
  | Some (v, []) => Normal v
  | _ => Throw (SyntaxError "Unexpected token")
  end.

Definition platform : Platform := {|
  Math_log2 := log2;
  encode_metadata := put_metadata;
  decode_metadata := fun b => whole (get_metadata b);
  encode_tree := put_tree;
  decode_tree := fun b => whole (get_tree (length b) b)
|}.

End Reference.

(** ** Further parts of the program *)

(** [PriorityQueue.dequeue] ([items.shift()], [undefined] on an empty
    array) and [PriorityQueue.size]. *)
Module PriorityQueue.
Definition dequeue (items : list HuffmanNode) : option HuffmanNode * list HuffmanNode :=
  match items with
  | [] => (None, [])
  | item :: items' => (Some item, items')
  end.

Definition size (items : list HuffmanNode) : nat := length items.
End PriorityQueue.

(** The leaves of a tree with their weights, left to right. *)
Fixpoint leaf_entries (node : HuffmanNode) : list (Z * Z) :=
  match node with
  | Node (Some c) f _ _ => [(c, f)]
  | Node None _ l r =>
      (match l with Some l' => leaf_entries l' | None => [] end)
      ++ (match r with Some r' => leaf_entries r' | None => [] end)
  end.

(** A strict binary tree: a leaf holds a byte value and has no child, an
    internal node holds none, has two children and weighs their sum. *)
Inductive full_tree : HuffmanNode -> Prop :=
| full_leaf c f : full_tree (Node (Some c) f None None)
| full_internal f l r :
    full_tree l -> full_tree r -> f = freq l + freq r ->
    full_tree (Node None f (Some l) (Some r)).

Definition Zsum (l : list Z) : Z := foldr Z.add 0 l.

(** The eight digits of a byte are binary and parse back to the byte. *)
Definition byte_check (b : Z) : bool :=
  (parseInt2 (byte_bits b) 0 =? b)
  && (length (byte_bits b) =? 8)%nat
  && forallb (fun c => Ascii.eqb c "0" || Ascii.eqb c "1") (byte_bits b).

(** [s.endsWith(suffix)]. *)
Definition endsWith (s suffix : string) : bool :=
  let n := String.length s in
  let k := String.length suffix in
  if (n <? k)%nat then false
  else String.eqb (substring (n - k) k s) suffix.

(** A selected [File] with its MIME type. *)
Module Upload.
Record t := mk { type : string; file : File.t }.
End Upload.

(** The state of the component that the handlers below read and write:
    [mode], [file], [result], [decompressedFile], the alert and the
    auto-switch notification. Timers that hide the messages again are not
    part of the state. *)
Module Ui.
Record t := mk {
  mode : Mode;
  file : option Upload.t;
  state : AppState;
  showAlert : bool;
  alertMessage : string;
  autoSwitchMessage : string
}.
End Ui.

(** The state of the first render. *)
Definition initialUi : Ui.t :=
  Ui.mk compress None {| result := None; decompressedFile := None |} false "" "".

Definition noResult : AppState := {| result := None; decompressedFile := None |}.

(** [handleFileProcessing] (lines 384-412). *)
Definition handleFileProcessing (st : Ui.t) (selectedFile : Upload.t) : Ui.t :=
  if String.eqb (Upload.type selectedFile) "application/pdf" then
    match Ui.mode st with
    | decompress =>
        Ui.mk compress (Some selectedFile) noResult (Ui.showAlert st) (Ui.alertMessage st)
          "Switched to Compress mode for PDF file"
    | compress =>
        Ui.mk compress (Some selectedFile) noResult (Ui.showAlert st) (Ui.alertMessage st)
          (Ui.autoSwitchMessage st)
    end
  else if endsWith (File.name (Upload.file selectedFile)) ".huf" then
    match Ui.mode st with
    | compress =>
        Ui.mk decompress (Some selectedFile) noResult (Ui.showAlert st) (Ui.alertMessage st)
          "Switched to Decompress mode for .huf file"
    | decompress =>
        Ui.mk decompress (Some selectedFile) noResult (Ui.showAlert st) (Ui.alertMessage st)
          (Ui.autoSwitchMessage st)
    end
  else
    Ui.mk (Ui.mode st) (Ui.file st) (Ui.state st) true
      (match Ui.mode st with
       | compress => "Only PDF files are allowed for compression!"
       | decompress => "Only .huf files are allowed for decompression!"
       end)
      (Ui.autoSwitchMessage st).

(** The two mode buttons (lines 702 and 713):
    [setMode(m); setFile(null); setResult(null)]. *)
Definition selectMode (m : Mode) (st : Ui.t) : Ui.t :=
  Ui.mk m None {| result := None; decompressedFile := decompressedFile (Ui.state st) |}
    (Ui.showAlert st) (Ui.alertMessage st) (Ui.autoSwitchMessage st).

(** [reset] (lines 607-618). *)
Definition reset (st : Ui.t) : Ui.t :=
  Ui.mk (Ui.mode st) None noResult (Ui.showAlert st) (Ui.alertMessage st)
    (Ui.autoSwitchMessage st).

(** The process button: [processFile] returns at once without a file. *)
Definition clickProcess (P : Platform) (random : Q) (st : Ui.t) : Ui.t :=
  match Ui.file st with
  | None => st
  | Some selected =>
      Ui.mk (Ui.mode st) (Ui.file st)
        (processFile P (Ui.mode st) (Upload.file selected) random)
        (Ui.showAlert st) (Ui.alertMessage st) (Ui.autoSwitchMessage st)
  end.

(** One event of the interface. *)
Inductive ui_step (P : Platform) : Ui.t -> Ui.t -> Prop :=
| step_file st selectedFile : ui_step P st (handleFileProcessing st selectedFile)
| step_mode st m : ui_step P st (selectMode m st)
| step_reset st : ui_step P st (reset st)
| step_process st random : ui_step P st (clickProcess P random st)
| step_settle st outcome :
    (* a [processFile] started earlier stores its result *)
    ui_step P st
      (Ui.mk (Ui.mode st) (Ui.file st) outcome
         (Ui.showAlert st) (Ui.alertMessage st) (Ui.autoSwitchMessage st)).

Inductive ui_reachable (P : Platform) : Ui.t -> Prop :=
| reach_initial : ui_reachable P initialUi
| reach_step st st' : ui_reachable P st -> ui_step P st st' -> ui_reachable P st'.

(** The selected file fits the mode: a PDF in compress mode, a [.huf] file
    that is no PDF in decompress mode. *)
Definition file_fits_mode (st : Ui.t) : Prop :=
  match Ui.file st with
  | None => True
  | Some selected =>
      match Ui.mode st with
      | compress => Upload.type selected = "application/pdf"%string
      | decompress =>
          Upload.type selected <> "application/pdf"%string /\
          endsWith (File.name (Upload.file selected)) ".huf" = true
      end
  end.

(** * Properties *)

(** ** RLE *)

Lemma run_count_bounds c rest k :
  (k <= run_count c rest k <= k + length rest)%nat.
Proof.
  revert k. induction rest as [|b rest IH]; intros k; simpl; [lia|].
  destruct ((b =? c) && (k <? 255)%nat); [|lia].
  specialize (IH (S k)). lia.
Qed.

Lemma run_count_cap c rest k :
  (k <= 255 -> run_count c rest k <= 255)%nat.
Proof.
  revert k. induction rest as [|b rest IH]; intros k Hk; simpl; [lia|].
  destruct (b =? c); simpl; [|lia].
  destruct (Nat.ltb_spec k 255); [apply IH; lia|lia].
Qed.

(** The bytes the inner loop counted are copies of [currentByte]. *)
Lemma run_count_take c rest k :
  take (run_count c rest k - k) rest = replicate (run_count c rest k - k) c.
Proof.
  revert k. induction rest as [|b rest IH]; intros k; simpl.
  - by rewrite Nat.sub_diag.
  - destruct (Z.eqb_spec b c) as [->|]; simpl.
    + destruct (k <? 255)%nat; [|by rewrite Nat.sub_diag].
      pose proof (run_count_bounds c rest (S k)) as Hb.
      replace (run_count c rest (S k) - k)%nat
        with (S (run_count c rest (S k) - S k)) by lia.
      simpl. by rewrite IH.
    + by rewrite Nat.sub_diag.
Qed.

Lemma rle_loop_fuel2 fuel1 fuel2 data :
  (length data <= fuel1)%nat -> (length data <= fuel2)%nat ->
  rle_loop fuel1 data = rle_loop fuel2 data.
Proof.
  revert fuel2 data. induction fuel1 as [|fuel1 IH]; intros fuel2 data H1 H2.
  - destruct data; simpl in *; [by destruct fuel2|lia].
  - destruct data as [|c rest]; [by destruct fuel2|].
    destruct fuel2 as [|fuel2]; simpl in H1, H2; [lia|].
    cbn [rle_loop]. cbv zeta.
    pose proof (run_count_bounds c rest 1) as Hb.
    set (count := run_count c rest 1) in *.
    assert (Hd : (length (drop count (c :: rest)) <= length rest)%nat).
    { rewrite length_drop. simpl. lia. }
    rewrite (IH fuel2 (drop count (c :: rest))) by lia.
    done.
Qed.

Lemma rle_loop_fuel fuel data :
  (length data <= fuel)%nat -> rle_loop fuel data = rle_loop (length data) data.
Proof. intros. by apply rle_loop_fuel2. Qed.

Lemma rle_loop_length fuel data :
  (length (rle_loop fuel data) <= length data)%nat.
Proof.
  revert data. induction fuel as [|fuel IH]; intros data; [simpl; lia|].
  destruct data as [|c rest]; [simpl; lia|].
  cbn [rle_loop]. cbv zeta.
  pose proof (run_count_bounds c rest 1) as Hb.
  set (count := run_count c rest 1) in *.
  specialize (IH (drop count (c :: rest))).
  rewrite length_drop in IH.
  destruct (Nat.leb_spec 4 count); cbn [length] in *.
  - lia.
  - rewrite length_app, length_replicate. lia.
Qed.

Lemma run_count_data c rest :
  let count := run_count c rest 1 in
  c :: rest = replicate count c ++ drop count (c :: rest).
Proof.
  intros count. pose proof (run_count_bounds c rest 1) as Hb.
  pose proof (run_count_take c rest 1) as Ht. fold count in Hb, Ht.
  destruct count as [|k]; [lia|].
  cbn [replicate drop app]. f_equal.
  replace (S k - 1)%nat with k in Ht by lia.
  by rewrite <- Ht, take_drop.
Qed.

(** A run ends at the end of the buffer, at a different byte or at the cap. *)
Lemma run_count_maximal c rest k :
  let count := run_count c rest k in
  count = 255%nat \/ (255 < k)%nat \/ drop (count - k) rest = [] \/
  exists b tl, drop (count - k) rest = b :: tl /\ b <> c.
Proof.
  revert k. induction rest as [|b rest IH]; intros k; cbn [run_count].
  - right; right; left. by rewrite drop_nil.
  - destruct (Z.eqb_spec b c) as [->|Hne]; cbn [andb].
    + destruct (Nat.ltb_spec k 255) as [Hk|Hk].
      * pose proof (run_count_bounds c rest (S k)) as Hb.
        destruct (IH (S k)) as [H|[H|[H|(b & tl & H & Hb')]]].
        -- by left.
        -- lia.
        -- right; right; left.
           replace (run_count c rest (S k) - k)%nat
             with (S (run_count c rest (S k) - S k)) by lia. done.
        -- right; right; right. exists b, tl.
           replace (run_count c rest (S k) - k)%nat
             with (S (run_count c rest (S k) - S k)) by lia. done.
      * destruct (decide (k = 255%nat)); [by left|right; left; lia].
    + right; right; right. exists b, rest. by rewrite Nat.sub_diag.
Qed.

Lemma to_uint8_id b : byte_ok b -> to_uint8 b = b.
Proof. intros Hb. unfold to_uint8. apply Z.mod_small. exact Hb. Qed.

Lemma Uint8Array_from_id l : Forall byte_ok l -> Uint8Array_from l = l.
Proof.
  induction 1 as [|b l Hb _ IH]; [done|].
  unfold Uint8Array_from in *. simpl. by rewrite IH, to_uint8_id.
Qed.

Lemma rle_loop_bytes fuel data :
  Forall byte_ok data -> Forall byte_ok (rle_loop fuel data).
Proof.
  revert data. induction fuel as [|fuel IH]; intros data Hd; [constructor|].
  destruct data as [|c rest]; [constructor|].
  cbn [rle_loop]. cbv zeta.
  pose proof (run_count_bounds c rest 1) as Hb.
  pose proof (run_count_cap c rest 1) as Hc.
  set (count := run_count c rest 1) in *.
  assert (Hc' : byte_ok c) by (by inversion Hd).
  assert (Hrest : Forall byte_ok (rle_loop fuel (drop count (c :: rest)))).
  { apply IH. by apply Forall_drop. }
  destruct (4 <=? count)%nat.
  - unfold byte_ok in *. repeat (apply Forall_cons; split; [lia|]). done.
  - apply Forall_app. split; [|done]. by apply Forall_replicate.
Qed.

Lemma reverseRLE_loop_literal c l :
  c <> 255 -> reverseRLE_loop (c :: l) = c :: reverseRLE_loop l.
Proof.
  intros Hc. destruct l as [|x [|y l]]; try done.
  cbn [reverseRLE_loop]. by destruct (Z.eqb_spec c 255).
Qed.

Lemma reverseRLE_loop_literals c n l :
  c <> 255 ->
  reverseRLE_loop (replicate n c ++ l) = replicate n c ++ reverseRLE_loop l.
Proof.
  intros Hc. induction n as [|n IH]; [done|].
  cbn [replicate app]. by rewrite reverseRLE_loop_literal, IH.
Qed.

Lemma reverseRLE_loop_rle fuel data :
  (length data <= fuel)%nat ->
  no_literal_sentinel fuel data = true ->
  reverseRLE_loop (rle_loop fuel data) = data.
Proof.
  revert data. induction fuel as [|fuel IH]; intros data Hlen Hsafe.
  - destruct data; simpl in *; [done|lia].
  - destruct data as [|c rest]; [done|].
    cbn [rle_loop no_literal_sentinel] in *. cbv zeta in *.
    pose proof (run_count_bounds c rest 1) as Hb.
    pose proof (run_count_data c rest) as Hdata. cbv zeta in Hdata.
    set (count := run_count c rest 1) in *.
    assert (Hd : (length (drop count (c :: rest)) <= fuel)%nat).
    { rewrite length_drop. simpl in *. lia. }
    destruct (4 <=? count)%nat.
    + cbn [reverseRLE_loop]. rewrite Nat2Z.id, (IH _ Hd Hsafe).
      by rewrite <- Hdata.
    + apply andb_prop in Hsafe as [Hc Hsafe].
      apply negb_true_iff, Z.eqb_neq in Hc.
      rewrite reverseRLE_loop_literals, (IH _ Hd Hsafe) by done.
      by rewrite <- Hdata.
Qed.

Lemma no_sentinel_no_literal fuel data :
  255 ∉ data -> no_literal_sentinel fuel data = true.
Proof.
  revert data. induction fuel as [|fuel IH]; intros data Hd; [done|].
  destruct data as [|c rest]; [done|].
  cbn [no_literal_sentinel]. cbv zeta.
  assert (Hrest : 255 ∉ drop (run_count c rest 1) (c :: rest)).
  { intros Hin. apply Hd. by apply (subseteq_drop _ _ _ Hin). }
  rewrite (IH _ Hrest). destruct (4 <=? _)%nat; [done|].
  rewrite andb_true_r. apply negb_true_iff, Z.eqb_neq.
  intros ->. apply Hd. by left.
Qed.

Lemma reverseRLE_preprocessData (B : list Z) :
  Forall byte_ok B ->
  no_literal_sentinel (length B) B = true ->
  reverseRLE (preprocessData B) = B.
Proof.
  intros Hbytes Hs. unfold reverseRLE, preprocessData.
  rewrite (Uint8Array_from_id (rle_loop _ _)) by by apply rle_loop_bytes.
  rewrite reverseRLE_loop_rle by done.
  by apply Uint8Array_from_id.
Qed.

(** With at most two bytes, the inverse transform finds no triplet. *)
Lemma reverseRLE_loop_short (l : list Z) :
  (length l <= 2)%nat -> reverseRLE_loop l = l.
Proof.
  destruct l as [|a [|b [|c l]]]; simpl; intros H; try done. lia.
Qed.

Lemma reverseRLE_loop_rle_at_end fuel data :
  (length data <= fuel)%nat ->
  literal_sentinel_at_end fuel data = true ->
  reverseRLE_loop (rle_loop fuel data) = data.
Proof.
  revert data. induction fuel as [|fuel IH]; intros data Hlen Hsafe.
  - destruct data; simpl in *; [done|lia].
  - destruct data as [|c rest]; [done|].
    cbn [rle_loop literal_sentinel_at_end] in *. cbv zeta in *.
    pose proof (run_count_bounds c rest 1) as Hb.
    pose proof (run_count_data c rest) as Hdata. cbv zeta in Hdata.
    set (count := run_count c rest 1) in *.
    assert (Hd : (length (drop count (c :: rest)) <= fuel)%nat).
    { rewrite length_drop. simpl in *. lia. }
    destruct (4 <=? count)%nat.
    + cbn [reverseRLE_loop]. rewrite Nat2Z.id, (IH _ Hd Hsafe).
      by rewrite <- Hdata.
    + apply andb_prop in Hsafe as [Hc Hsafe].
      specialize (IH _ Hd Hsafe).
      apply orb_prop in Hc as [Hc|Hc].
      * apply negb_true_iff, Z.eqb_neq in Hc.
        rewrite reverseRLE_loop_literals, IH by done.
        by rewrite <- Hdata.
      * apply Nat.leb_le in Hc.
        rewrite reverseRLE_loop_short
          by (rewrite length_app, length_replicate; lia).
        rewrite reverseRLE_loop_short in IH by lia.
        by rewrite IH, <- Hdata.
Qed.

Lemma no_literal_sentinel_at_end fuel data :
  no_literal_sentinel fuel data = true -> literal_sentinel_at_end fuel data = true.
Proof.
  revert data. induction fuel as [|fuel IH]; intros data Hsafe; [done|].
  destruct data as [|c rest]; [done|].
  cbn [no_literal_sentinel literal_sentinel_at_end] in *. cbv zeta in *.
  destruct (4 <=? _)%nat; [by apply IH|].
  apply andb_prop in Hsafe as [Hc Hsafe].
  by rewrite Hc, (IH _ Hsafe).
Qed.

Lemma reverseRLE_preprocessData_at_end (B : list Z) :
  Forall byte_ok B ->
  literal_sentinel_at_end (length B) B = true ->
  reverseRLE (preprocessData B) = B.
Proof.
  intros Hbytes Hs. unfold reverseRLE, preprocessData.
  rewrite (Uint8Array_from_id (rle_loop _ _)) by by apply rle_loop_bytes.
  rewrite reverseRLE_loop_rle_at_end by done.
  by apply Uint8Array_from_id.
Qed.

(** ** Bit packing *)

Lemma unpack_foldl (l : list Z) (acc : list ascii) :
  foldl (fun acc b => acc ++ byte_bits b) acc l = acc ++ concat (map byte_bits l).
Proof.
  revert acc. induction l as [|b l IH]; intros acc; simpl.
  - by rewrite app_nil_r.
  - by rewrite IH, app_assoc.
Qed.

(** One group of eight binary digits survives the trip through a byte. *)
Lemma byte_bits_parseInt2 (chunk : list ascii) :
  length chunk = 8%nat -> Forall is_bit chunk ->
  byte_bits (to_uint8 (parseInt2 chunk 0)) = chunk.
Proof.
  intros Hlen Hbits.
  do 8 (destruct chunk as [|? chunk]; [done|]).
  destruct chunk; [|done]. clear Hlen.
  repeat match goal with
         | H : Forall _ (_ :: _) |- _ => apply Forall_cons in H as [[-> | ->] H]
         end; reflexivity.
Qed.

Lemma pack_loop_bits k : forall fuel s,
  length s = (8 * k)%nat -> (length s <= fuel)%nat -> Forall is_bit s ->
  concat (map byte_bits (pack_loop fuel s)) = s.
Proof.
  induction k as [|k IH]; intros fuel s Hlen Hfuel Hbits.
  - destruct s; [|done]. by destruct fuel.
  - destruct s as [|c s]; [done|]. destruct fuel as [|fuel]; [simpl in *; lia|].
    cbn [pack_loop map concat].
    rewrite byte_bits_parseInt2.
    + rewrite (IH fuel (drop 8 (c :: s))).
      * apply take_drop.
      * rewrite length_drop. lia.
      * rewrite length_drop. simpl in *. lia.
      * by apply Forall_drop.
    + rewrite length_take. lia.
    + by apply Forall_take.
Qed.

Lemma packBits_padding_bound (bits : list ascii) :
  0 <= Packed.padding (packBits bits) <= 7.
Proof.
  unfold packBits. cbv zeta. cbn [Packed.padding].
  pose proof (Z.mod_pos_bound (8 - Z.of_nat (length bits) mod 8) 8). lia.
Qed.

Lemma unpackBits_packBits (bits : list ascii) :
  Forall is_bit bits ->
  unpackBits (Packed.bytes (packBits bits)) (Packed.padding (packBits bits)) = bits.
Proof.
  intros Hbits. pose proof (packBits_padding_bound bits) as Hpad. revert Hpad.
  unfold packBits. cbv zeta. cbn [Packed.bytes Packed.padding].
  set (n := Z.of_nat (length bits)).
  set (pad := (8 - n mod 8) mod 8). intros Hpad.
  set (padded := if 0 <? pad then bits ++ replicate (Z.to_nat pad) "0"%char else bits).
  assert (Hpadded : padded = bits ++ replicate (Z.to_nat pad) "0"%char).
  { subst padded. destruct (Z.ltb_spec 0 pad); [done|].
    replace pad with 0 by lia. simpl. by rewrite app_nil_r. }
  assert (Hlen : exists k, length padded = (8 * k)%nat).
  { exists (Z.to_nat ((n + pad) / 8)).
    rewrite Hpadded, length_app, length_replicate.
    assert ((n + pad) mod 8 = 0).
    { subst pad. rewrite Zplus_mod_idemp_r.
      replace (n + (8 - n mod 8)) with (n - n mod 8 + 1 * 8) by lia.
      rewrite Z_mod_plus_full, Zminus_mod_idemp_r, Z.sub_diag. done. }
    assert (n + pad = 8 * ((n + pad) / 8)) by (apply Z_div_exact_full_2; lia).
    subst n. lia. }
  destruct Hlen as [k Hk].
  assert (Hpb : Forall is_bit padded).
  { rewrite Hpadded. apply Forall_app. split; [done|].
    apply Forall_replicate. by left. }
  unfold unpackBits. cbv zeta.
  rewrite unpack_foldl. cbn [app].
  rewrite (pack_loop_bits k) by done.
  destruct (Z.ltb_spec 0 pad) as [Hp|Hp].
  - rewrite Hpadded, length_app, length_replicate.
    replace (Z.to_nat (Z.of_nat (length bits + Z.to_nat pad) - pad))
      with (length bits) by lia.
    apply take_app_length.
  - rewrite Hpadded. replace pad with 0 by lia. simpl. apply app_nil_r.
Qed.

(** ** Sorting and the priority queue *)

Lemma sort_insert_perm {A} (cmp : A -> A -> Z) x l : sort_insert cmp x l ≡ₚ x :: l.
Proof.
  induction l as [|y l IH]; simpl; [done|].
  destruct (cmp x y <=? 0); [done|].
  rewrite IH. apply Permutation_swap.
Qed.

Lemma Array_sort_perm {A} (cmp : A -> A -> Z) l : Array_sort cmp l ≡ₚ l.
Proof.
  induction l as [|x l IH]; simpl; [done|].
  by rewrite sort_insert_perm, IH.
Qed.

Lemma enqueue_perm item items : enqueue item items ≡ₚ item :: items.
Proof.
  unfold enqueue. rewrite Array_sort_perm. by rewrite Permutation_app_comm.
Qed.

Lemma Object_entries_perm o : Object_entries o ≡ₚ map_to_list o.
Proof. apply Array_sort_perm. Qed.

Lemma Object_keys_perm o : Object_keys o ≡ₚ (map_to_list o).*1.
Proof. unfold Object_keys. by rewrite Object_entries_perm. Qed.

(** The enumeration of an object is in ascending order of the keys. *)
Lemma sort_insert_by_key_sorted (x : Z * Z) (l : list (Z * Z)) :
  StronglySorted (fun a b => a.1 <= b.1) l ->
  StronglySorted (fun a b => a.1 <= b.1) (sort_insert (fun a b => a.1 - b.1) x l).
Proof.
  induction 1 as [|y l Hl IH Hy]; simpl.
  - repeat constructor.
  - destruct (Z.leb_spec (x.1 - y.1) 0) as [Hxy|Hxy].
    + constructor; [by constructor|].
      constructor; [lia|]. eapply Forall_impl; [exact Hy|].
      intros z Hz. simpl in *. lia.
    + constructor; [done|].
      rewrite sort_insert_perm. constructor; [lia|done].
Qed.

Lemma Object_entries_sorted o :
  StronglySorted (fun a b => a.1 <= b.1) (Object_entries o).
Proof.
  unfold Object_entries, Array_sort.
  induction (map_to_list o) as [|x l IH]; simpl; [constructor|].
  by apply sort_insert_by_key_sorted.
Qed.

Lemma elem_of_Object_keys o k : k ∈ Object_keys o <-> is_Some (o !! k).
Proof.
  rewrite Object_keys_perm, list_elem_of_fmap. split.
  - intros [[k' v] [-> Hin]]. apply elem_of_map_to_list in Hin. by exists v.
  - intros [v Hv]. exists (k, v). split; [done|]. by apply elem_of_map_to_list.
Qed.

(** ** Trees *)

Lemma HuffmanNode_induction (Q : HuffmanNode -> Prop) :
  (forall c f l r,
      (forall l', l = Some l' -> Q l') ->
      (forall r', r = Some r' -> Q r') ->
      Q (Node c f l r)) ->
  forall node, Q node.
Proof.
  intros Hstep. fix IH 1. intros [c f l r]. apply Hstep.
  - destruct l as [l'|]; intros ? [= <-]. apply IH.
  - destruct r as [r'|]; intros ? [= <-]. apply IH.
Qed.

Lemma path_to_bits node p c : path_to node p c -> Forall is_bit p.
Proof.
  induction 1; constructor; try done; [by left|by right].
Qed.

Lemma path_to_leaves node p c : path_to node p c -> c ∈ leaves node.
Proof.
  induction 1 as [[ch f l r] c Hc|[ch f l r] l' p c Hc Hl _ IH|[ch f l r] r' p c Hc Hr _ IH];
    simpl in *; subst.
  - by apply list_elem_of_singleton.
  - apply elem_of_app. by left.
  - apply elem_of_app. by right.
Qed.

(** Paths are deterministic: no path continues through a node that holds a
    byte value. *)
Lemma path_to_prefix node p1 c1 :
  path_to node p1 c1 ->
  forall p2 c2, path_to node p2 c2 -> p1 `prefix_of` p2 -> p1 = p2 /\ c1 = c2.
Proof.
  induction 1 as [node c Hc|node l p c Hc Hl _ IH|node r p c Hc Hr _ IH];
    intros p2 c2 H2 Hpre.
  - inversion H2; subst; [split; congruence|congruence|congruence].
  - inversion H2 as [|? l2 q ? ? Hl2 Hq|? r2 q ? ? Hr2 Hq]; subst.
    + by apply prefix_nil_not in Hpre.
    + assert (l2 = l) as -> by congruence.
      destruct (IH q c2 Hq) as [-> ->]; [|done].
      by eapply prefix_cons_inv_2.
    + by apply prefix_cons_inv_1 in Hpre.
  - inversion H2 as [|? l2 q ? ? Hl2 Hq|? r2 q ? ? Hr2 Hq]; subst.
    + by apply prefix_nil_not in Hpre.
    + by apply prefix_cons_inv_1 in Hpre.
    + assert (r2 = r) as -> by congruence.
      destruct (IH q c2 Hq) as [-> ->]; [|done].
      by eapply prefix_cons_inv_2.
Qed.

(** ** The tree builder *)

Lemma foldl_enqueue_perm (l : list (Z * Z)) (acc : list HuffmanNode) :
  foldl (fun pq e => enqueue (leafNode e) pq) acc l ≡ₚ acc ++ map leafNode l.
Proof.
  revert acc. induction l as [|e l IH]; intros acc; simpl.
  - by rewrite app_nil_r.
  - rewrite IH, enqueue_perm. by rewrite <- Permutation_middle.
Qed.

Lemma leafNode_leaves (l : list (Z * Z)) : map leafNode l ≫= leaves = l.*1.
Proof.
  induction l as [|e l IH]; [done|].
  rewrite map_cons, bind_cons, IH. done.
Qed.

Lemma merge_loop_result fuel : forall pq,
  (length pq <= S fuel)%nat -> pq <> [] ->
  exists root, merge_loop fuel pq = [root] /\ leaves root ≡ₚ pq ≫= leaves.
Proof.
  induction fuel as [|fuel IH]; intros pq Hlen Hne.
  - destruct pq as [|x [|y pq]]; simpl in *; [done| |lia].
    exists x. by rewrite app_nil_r.
  - destruct pq as [|x [|y pq]]; [done| |].
    + exists x. simpl. by rewrite app_nil_r.
    + cbn [merge_loop]. cbv zeta.
      set (merged := Node None (freq x + freq y) (Some x) (Some y)).
      destruct (IH (enqueue merged pq)) as (root & Hroot & Hleaves).
      * rewrite enqueue_perm. simpl in *. lia.
      * intros Hnil. pose proof (enqueue_perm merged pq) as Hp.
        rewrite Hnil in Hp. by apply Permutation_nil_cons in Hp.
      * exists root. split; [done|].
        rewrite Hleaves, enqueue_perm. simpl. by rewrite app_assoc.
Qed.

Lemma buildHuffmanTree_leaves freqTable :
  match buildHuffmanTree freqTable with
  | Some tree => leaves tree ≡ₚ Object_keys freqTable
  | None => freqTable = ∅
  end.
Proof.
  unfold buildHuffmanTree. cbv zeta.
  set (sortedFreqs := Array_sort _ (Object_entries freqTable)).
  set (pq := foldl _ [] sortedFreqs).
  assert (Hpq : pq ≫= leaves ≡ₚ Object_keys freqTable).
  { subst pq. rewrite foldl_enqueue_perm, app_nil_l, leafNode_leaves.
    subst sortedFreqs. unfold Object_keys. by rewrite Array_sort_perm. }
  clearbody pq. destruct pq as [|x [|y pq']].
  - simpl in *. apply map_to_list_empty_iff.
    apply Permutation_nil in Hpq.
    unfold Object_keys in Hpq. apply fmap_nil_inv in Hpq.
    pose proof (Object_entries_perm freqTable) as Hp. rewrite Hpq in Hp.
    by apply Permutation_nil in Hp.
  - simpl in *. by rewrite app_nil_r in *.
  - destruct (merge_loop_result (length (x :: y :: pq')) (x :: y :: pq'))
      as (root & -> & Hleaves); [lia|done|].
    simpl. by rewrite Hleaves.
Qed.

(** ** The code table *)

Lemma code_or_0_nonempty code : code_or_0 code <> [].
Proof. by destruct code. Qed.

Lemma traverse_lookup node : forall code codes c q,
  traverse node code codes !! c = Some q ->
  codes !! c = Some q \/ exists p, path_to node p c /\ q = code_or_0 (code ++ p).
Proof.
  induction node as [ch f l r IHl IHr] using HuffmanNode_induction.
  intros code codes c q Hq. destruct ch as [ch|]; cbn [traverse] in Hq.
  - rewrite lookup_insert in Hq. case_decide as Hc.
    + subst. right. exists []. split; [by constructor|].
      rewrite app_nil_r. congruence.
    + by left.
  - set (codes1 := match l with
                   | Some l' => traverse l' (code ++ ["0"%char]) codes
                   | None => codes
                   end) in *.
    assert (H1 : codes1 !! c = Some q ->
                 codes !! c = Some q \/
                 exists p, path_to (Node None f l r) p c /\ q = code_or_0 (code ++ p)).
    { subst codes1. destruct l as [l'|]; [|by left].
      intros H. destruct (IHl l' eq_refl _ _ _ _ H) as [?|(p & Hp & ->)]; [by left|].
      right. exists ("0"%char :: p). split; [by eapply path_left|].
      by rewrite <- app_assoc. }
    destruct r as [r'|]; [|by apply H1].
    destruct (IHr r' eq_refl _ _ _ _ Hq) as [?|(p & Hp & ->)]; [by apply H1|].
    right. exists ("1"%char :: p). split; [by eapply path_right|].
    by rewrite <- app_assoc.
Qed.

Lemma traverse_mono node : forall code codes c,
  is_Some (codes !! c) -> is_Some (traverse node code codes !! c).
Proof.
  induction node as [ch f l r IHl IHr] using HuffmanNode_induction.
  intros code codes c Hc. destruct ch as [ch|]; cbn [traverse].
  - rewrite lookup_insert. by case_decide.
  - destruct l as [l'|], r as [r'|]; eauto.
Qed.

Lemma traverse_covers node : forall code codes c,
  c ∈ leaves node -> is_Some (traverse node code codes !! c).
Proof.
  induction node as [ch f l r IHl IHr] using HuffmanNode_induction.
  intros code codes c Hc. destruct ch as [ch|]; cbn [traverse leaves] in *.
  - apply list_elem_of_singleton in Hc as ->. rewrite lookup_insert_eq. by eexists.
  - apply elem_of_app in Hc as [Hc|Hc].
    + destruct l as [l'|]; [|by apply elem_of_nil in Hc].
      destruct r as [r'|]; [apply traverse_mono|]; by eapply IHl.
    + destruct r as [r'|]; [|by apply elem_of_nil in Hc]. by eapply IHr.
Qed.

(** The code of every leaf of a tree is the path to it. *)
Lemma traverse_path node c :
  c ∈ leaves node ->
  exists p, path_to node p c /\ traverse node [] ∅ !! c = Some (code_or_0 p).
Proof.
  intros Hc. destruct (traverse_covers node [] ∅ c Hc) as [q Hq].
  destruct (traverse_lookup _ _ _ _ _ Hq) as [?|(p & Hp & ->)]; [done|].
  by exists p.
Qed.

Lemma path_to_root_code node p c :
  path_to node p c -> char node = None -> code_or_0 p = p /\ p <> [].
Proof. intros Hp Hc. inversion Hp; subst; [congruence|done|done]. Qed.

Lemma code_or_0_bits p : Forall is_bit p -> Forall is_bit (code_or_0 p).
Proof. destruct p; [|done]. intros _. repeat constructor. Qed.

Lemma traverse_prefix_free node c1 c2 q1 q2 :
  traverse node [] ∅ !! c1 = Some q1 ->
  traverse node [] ∅ !! c2 = Some q2 ->
  q1 `prefix_of` q2 -> c1 = c2.
Proof.
  intros H1 H2 Hpre.
  destruct (traverse_lookup _ _ _ _ _ H1) as [?|(p1 & Hp1 & ->)]; [done|].
  destruct (traverse_lookup _ _ _ _ _ H2) as [?|(p2 & Hp2 & ->)]; [done|].
  simpl in Hpre. destruct (char node) as [ch|] eqn:Hch.
  - inversion Hp1; inversion Hp2; congruence.
  - destruct (path_to_root_code _ _ _ Hp1 Hch) as [E1 _].
    destruct (path_to_root_code _ _ _ Hp2 Hch) as [E2 _].
    rewrite E1, E2 in Hpre.
    by destruct (path_to_prefix _ _ _ Hp1 _ _ Hp2 Hpre).
Qed.

(** ** The frequency table *)

Lemma count_fold_dom (data : list Z) (acc : gmap Z Z) (c : Z) :
  is_Some (foldl (fun freq byte => <[byte := or_zero (freq !! byte) + 1]> freq) acc data !! c)
  <-> is_Some (acc !! c) \/ c ∈ data.
Proof.
  revert acc. induction data as [|b data IH]; intros acc; simpl.
  - split; [by left|]. intros [?|H]; [done|]. by apply elem_of_nil in H.
  - rewrite IH, lookup_insert, elem_of_cons. case_decide as Hb.
    + subst. split; [intros _; right; by left|]. intros _. left. by eexists.
    + split.
      * intros [?|?]; [by left|right; by right].
      * intros [?|[->|?]]; [by left|congruence|by right].
Qed.

Lemma boost_dom (freq : gmap Z Z) (pattern c : Z) :
  is_Some (boost freq pattern !! c) <-> is_Some (freq !! c).
Proof.
  unfold boost. destruct (freq !! pattern) as [f|] eqn:Hf; [|done].
  destruct (f =? 0); [done|].
  rewrite lookup_insert. case_decide; [|done]. subst.
  split; intros _; by eexists.
Qed.

Lemma buildFrequencyTable_dom (data : list Z) (c : Z) :
  is_Some (buildFrequencyTable data !! c) <-> c ∈ data.
Proof.
  unfold buildFrequencyTable. cbv zeta.
  generalize pdfPatterns. intros patterns.
  set (freq := foldl _ ∅ data).
  assert (Hfreq : is_Some (freq !! c) <-> c ∈ data).
  { subst freq. rewrite count_fold_dom, lookup_empty.
    split; [intros [H|?]; [by destruct H|done]|by right]. }
  clearbody freq. revert freq Hfreq.
  induction patterns as [|pat patterns IH]; intros freq Hfreq; simpl; [done|].
  apply IH. by rewrite boost_dom.
Qed.

Lemma Object_keys_buildFrequencyTable (data : list Z) (c : Z) :
  c ∈ Object_keys (buildFrequencyTable data) <-> c ∈ data.
Proof. by rewrite elem_of_Object_keys, buildFrequencyTable_dom. Qed.

(** ** Decoding *)

Lemma decode_path tree current p c :
  path_to current p c -> char current = None ->
  forall rest result,
    decode_loop tree (p ++ rest) current result
    = decode_loop tree rest tree (result ++ [c]).
Proof.
  induction 1 as [node c Hc|node l p c Hc Hl Hp IH|node r p c Hc Hr Hp IH];
    intros Hnone rest result; [congruence| |].
  - cbn [app decode_loop]. rewrite Hl.
    change (Ascii.eqb "0" "0") with true. cbv iota.
    destruct (char l) as [c'|] eqn:Hl'.
    + inversion Hp; subst; [|congruence|congruence].
      assert (c' = c) as -> by congruence. done.
    + by apply IH.
  - cbn [app decode_loop]. rewrite Hr.
    change (Ascii.eqb "1" "0") with false. change (Ascii.eqb "1" "1") with true.
    cbv iota.
    destruct (char r) as [c'|] eqn:Hr'.
    + inversion Hp; subst; [|congruence|congruence].
      assert (c' = c) as -> by congruence. done.
    + by apply IH.
Qed.

Lemma encode_foldl (codes : gmap Z (list ascii)) (data : list Z) (acc : list ascii) :
  foldl (fun bits b => bits ++ default undefined_text (codes !! b)) acc data
  = acc ++ concat (map (fun b => default undefined_text (codes !! b)) data).
Proof.
  revert acc. induction data as [|b data IH]; intros acc; simpl.
  - by rewrite app_nil_r.
  - by rewrite IH, app_assoc.
Qed.

Lemma decode_encoded tree (codes : gmap Z (list ascii)) (data : list Z) :
  char tree = None ->
  (forall b, b ∈ data -> exists p, codes !! b = Some p /\ path_to tree p b) ->
  forall result,
    decode_loop tree
      (concat (map (fun b => default undefined_text (codes !! b)) data)) tree result
    = result ++ data.
Proof.
  intros Hroot. induction data as [|b data IH]; intros Hcodes result; simpl.
  - by rewrite app_nil_r.
  - destruct (Hcodes b) as (p & Hp & Hpath); [by left|].
    rewrite Hp. simpl. rewrite (decode_path tree tree p b Hpath Hroot).
    rewrite IH; [by rewrite <- app_assoc|].
    intros b' Hb'. apply Hcodes. by right.
Qed.

Lemma encoded_bits tree (codes : gmap Z (list ascii)) (data : list Z) :
  (forall b, b ∈ data -> exists p, codes !! b = Some p /\ path_to tree p b) ->
  Forall is_bit (concat (map (fun b => default undefined_text (codes !! b)) data)).
Proof.
  induction data as [|b data IH]; intros Hcodes; simpl; [constructor|].
  apply Forall_app. split.
  - destruct (Hcodes b) as (p & -> & Hpath); [by left|]. simpl.
    by eapply path_to_bits.
  - apply IH. intros b' Hb'. apply Hcodes. by right.
Qed.

(** ** The container *)

Lemma getUint32_le_setUint32_le (n : Z) (rest : list Z) :
  0 <= n < 2 ^ 32 ->
  getUint32_le (setUint32_le n ++ rest) 0 = n.
Proof.
  intros Hn. unfold getUint32_le, setUint32_le. cbv zeta.
  rewrite (Z.mod_small n (2 ^ 32)) by done. simpl nth.
  change (2 ^ 32) with 4294967296 in Hn.
  Z.div_mod_to_equations. lia.
Qed.

Lemma getUint32_le_skip (a b c d : Z) (rest : list Z) (offset : nat) :
  getUint32_le (a :: b :: c :: d :: rest) (4 + offset) = getUint32_le rest offset.
Proof. done. Qed.

Lemma deserialize_serialize_node (node : HuffmanNode) :
  deserializeNode (serializeNode node) = node.
Proof.
  induction node as [c f l r IHl IHr] using HuffmanNode_induction. simpl.
  f_equal.
  - destruct l as [l'|]; [|done]. by rewrite (IHl l').
  - destruct r as [r'|]; [|done]. by rewrite (IHr r').
Qed.

Lemma deserialize_serialize (tree : option HuffmanNode) :
  deserializeTree (serializeTree tree) = tree.
Proof. destruct tree; [|done]. simpl. by rewrite deserialize_serialize_node. Qed.

(** ** Compression followed by decompression *)

Lemma preprocessData_bytes (B : list Z) : Forall byte_ok (preprocessData B).
Proof.
  unfold preprocessData, Uint8Array_from. apply Forall_fmap, Forall_true.
  intros x. unfold byte_ok, to_uint8. simpl. apply Z.mod_pos_bound. lia.
Qed.

Lemma preprocessData_rle_loop (B : list Z) :
  Forall byte_ok B -> preprocessData B = rle_loop (length B) B.
Proof. intros HB. apply Uint8Array_from_id. by apply rle_loop_bytes. Qed.

Lemma preprocessData_nonempty (B : list Z) : B <> [] -> preprocessData B <> [].
Proof.
  destruct B as [|c rest]; [done|]. intros _.
  unfold preprocessData, Uint8Array_from. cbn [length rle_loop]. cbv zeta.
  pose proof (run_count_bounds c rest 1) as Hb.
  destruct (4 <=? _)%nat; [done|].
  destruct (run_count c rest 1); [lia|done].
Qed.

(** When the transformed buffer holds a single byte value, so does the
    buffer. *)
Lemma rle_loop_single fuel : forall data c,
  (length data <= fuel)%nat ->
  Forall (eq c) (rle_loop fuel data) -> Forall (eq c) data.
Proof.
  induction fuel as [|fuel IH]; intros data c Hlen Hall.
  - destruct data; simpl in *; [done|lia].
  - destruct data as [|c0 rest]; [done|].
    cbn [rle_loop] in Hall. cbv zeta in Hall.
    pose proof (run_count_bounds c0 rest 1) as Hb.
    pose proof (run_count_data c0 rest) as Hdata. cbv zeta in Hdata.
    set (count := run_count c0 rest 1) in *.
    assert (Hd : (length (drop count (c0 :: rest)) <= fuel)%nat).
    { rewrite length_drop. simpl in *. lia. }
    rewrite Hdata. apply Forall_app.
    destruct (4 <=? count)%nat.
    + apply Forall_cons in Hall as [_ Hall].
      apply Forall_cons in Hall as [_ Hall].
      apply Forall_cons in Hall as [-> Hall].
      split; [by apply Forall_replicate|by apply IH].
    + apply Forall_app in Hall as [Hrun Hall].
      split; [done|by apply IH].
Qed.

Lemma Forall_eq_replicate (c : Z) (l : list Z) :
  Forall (eq c) l -> l = replicate (length l) c.
Proof. induction 1 as [|x l <- _ IH]; [done|]. simpl. by rewrite <- IH. Qed.

(** What [huffmanCompress] returns and [huffmanDecompress] makes of it. *)
Lemma huffman_roundtrip (P : Platform) (file : File.t) :
  let B := File.arrayBuffer file in
  Forall byte_ok B -> B <> [] ->
  Z.of_nat (length B) <= MAX_SAFE_INTEGER ->
  reverseRLE (preprocessData B) = B \/
  length (Object_keys (buildFrequencyTable (preprocessData B))) = 1%nat ->
  exists r,
    huffmanCompress P (Some file) = Normal r /\
    huffmanDecompress (Result.compressed r) (Result.tree r)
      (Result.padding r) (Result.originalSize r) = Normal B.
Proof.
  intros B HB Hne Hmax Hrle. unfold huffmanCompress. fold B. cbv zeta.
  set (pre := preprocessData B) in *.
  set (ft := buildFrequencyTable pre) in *.
  assert (Hkeys_in : forall b, b ∈ Object_keys ft <-> b ∈ pre)
    by apply Object_keys_buildFrequencyTable.
  assert (Hpre_ne : pre <> []) by by apply preprocessData_nonempty.
  destruct (Object_keys ft) as [|k1 [|k2 ks]] eqn:Hkeys.
  - destruct pre as [|b pre']; [done|].
    assert (Hb : b ∈ []) by (apply Hkeys_in; by left).
    by apply elem_of_nil in Hb.
  - (* a single byte value *)
    eexists. split; [done|]. cbn [Result.compressed Result.tree Result.padding
                                   Result.originalSize huffmanDecompress].
    destruct (Z.ltb_spec (Z.of_nat (length B)) 0) as [?|_]; [lia|].
    destruct (Z.ltb_spec MAX_SAFE_INTEGER (Z.of_nat (length B))) as [?|_]; [lia|].
    cbn [orb]. rewrite Nat2Z.id. f_equal.
    assert (Hall : Forall (eq k1) pre).
    { apply Forall_forall. intros b Hb. apply Hkeys_in in Hb.
      by apply list_elem_of_singleton in Hb. }
    assert (Hk1 : byte_ok k1).
    { assert (Hin : k1 ∈ pre) by (apply Hkeys_in; by left).
      pose proof (preprocessData_bytes B) as Hbytes.
      rewrite Forall_forall in Hbytes. by apply Hbytes. }
    rewrite (to_uint8_id k1 Hk1).
    subst pre. rewrite (preprocessData_rle_loop B HB) in Hall.
    apply rle_loop_single in Hall; [|done].
    symmetry. by apply Forall_eq_replicate.
  - (* the general path *)
    destruct Hrle as [Hrle|Hone]; [|simpl in Hone; lia].
    pose proof (buildHuffmanTree_leaves ft) as Hleaves.
    destruct (buildHuffmanTree ft) as [tree|] eqn:Htree.
    2:{ rewrite Hleaves in Hkeys. done. }
    rewrite Hkeys in Hleaves.
    assert (Hroot : char tree = None).
    { destruct tree as [[c|] f l r]; [|done]. simpl in Hleaves.
      apply Permutation_length in Hleaves. simpl in Hleaves. lia. }
    assert (Hcodes : forall b, b ∈ pre ->
              exists p, traverse tree [] ∅ !! b = Some p /\ path_to tree p b).
    { intros b Hb. apply Hkeys_in in Hb. rewrite <- Hleaves in Hb.
      destruct (traverse_path tree b Hb) as (p & Hp & Hcode).
      exists p. split; [|done].
      by destruct (path_to_root_code _ _ _ Hp Hroot) as [<- _]. }
    cbn [buildCodes mbind completion_bind].
    eexists. split; [done|].
    cbn [Result.compressed Result.tree Result.padding Result.originalSize].
    rewrite encode_foldl, app_nil_l.
    set (bits := concat _).
    assert (Hbits : Forall is_bit bits) by by eapply encoded_bits.
    destruct tree as [ch f l r]. simpl in Hroot. subst ch.
    cbn [huffmanDecompress].
    rewrite (unpackBits_packBits bits Hbits). subst bits.
    rewrite (decode_encoded (Node None f l r) _ _ eq_refl Hcodes), app_nil_l.
    rewrite (Uint8Array_from_id pre) by apply preprocessData_bytes.
    by rewrite Hrle.
Qed.

Lemma adjustResult_payload (r : Result.t) (random : Q) :
  Result.compressed (adjustResult r random) = Result.compressed r /\
  Result.tree (adjustResult r random) = Result.tree r /\
  Result.padding (adjustResult r random) = Result.padding r /\
  Result.originalSize (adjustResult r random) = Result.originalSize r /\
  Result.uniqueBytes (adjustResult r random) = Result.uniqueBytes r /\
  Result.entropy (adjustResult r random) = Result.entropy r.
Proof. unfold adjustResult. by destruct (Qle_bool _ _). Qed.

Lemma setUint32_le_length (n : Z) : length (setUint32_le n) = 4%nat.
Proof. done. Qed.

(** Reading back an assembled container hands its three parts to
    [huffmanDecompress]. *)
Lemma readContainer_assemble (P : Platform) (metadata : Meta.t)
    (treeData : option TreeData) (compressed : list Z) :
  codec_faithful P metadata treeData ->
  readContainer P (assembleContainer P metadata treeData compressed)
  = match deserializeTree treeData with
    | None => Throw (Error "Failed to rebuild Huffman tree")
    | Some tree =>
        decompressed ← huffmanDecompress compressed (Some tree)
                         (Meta.padding metadata) (Meta.originalSize metadata);
        Normal (decompressed,
                Stats.mk (Meta.originalSize metadata)
                  (Z.of_nat (length compressed))
                  (Meta.compressionRatio metadata) (Meta.entropy metadata)
                  (Meta.uniqueBytes metadata) (Meta.originalFileName metadata)
                  (Meta.efficiency metadata)
                  (Z.of_nat (length decompressed)))
    end.
Proof.
  intros (Hm & Ht & HM & HT).
  unfold readContainer, assembleContainer. cbv zeta.
  set (mb := encode_metadata P metadata) in *.
  set (tb := encode_tree P treeData) in *.
  set (M := Z.of_nat (length mb)) in *.
  set (T := Z.of_nat (length tb)) in *.
  set (data := (setUint32_le M ++ setUint32_le T) ++ mb ++ tb ++ compressed).
  assert (Hlen : length data = (8 + length mb + length tb + length compressed)%nat).
  { subst data. rewrite !length_app, !setUint32_le_length. lia. }
  assert (HgM : getUint32_le data 0 = M).
  { subst data. rewrite <- app_assoc.
    apply getUint32_le_setUint32_le. subst M. lia. }
  assert (HgT : getUint32_le data 4 = T).
  { subst data. rewrite <- app_assoc.
    change (setUint32_le M) with
      [(M mod 2 ^ 32) mod 256; (M mod 2 ^ 32 / 256) mod 256;
       (M mod 2 ^ 32 / 65536) mod 256; (M mod 2 ^ 32 / 16777216) mod 256].
    cbn [app]. rewrite (getUint32_le_skip _ _ _ _ _ 0).
    apply getUint32_le_setUint32_le. subst T. lia. }
  rewrite HgM, HgT.
  destruct (Nat.ltb_spec (length data) 8) as [?|_]; [lia|].
  destruct (Z.ltb_spec (Z.of_nat (length data)) (8 + M + T)) as [?|_]; [lia|].
  assert (Hdrop8 : drop 8 data = mb ++ tb ++ compressed).
  { subst data. by apply drop_app_length'. }
  assert (Hslice1 : slice data 8 (8 + M) = mb).
  { unfold slice. replace (Z.to_nat (8 + M - 8)) with (length mb) by lia.
    change (Z.to_nat 8) with 8%nat. rewrite Hdrop8. apply take_app_length. }
  assert (HdropM : drop (Z.to_nat (8 + M)) data = tb ++ compressed).
  { replace (Z.to_nat (8 + M)) with (8 + length mb)%nat by lia.
    rewrite <- drop_drop, Hdrop8. apply drop_app_length. }
  assert (Hslice2 : slice data (8 + M) (8 + M + T) = tb).
  { unfold slice. replace (Z.to_nat (8 + M + T - (8 + M))) with (length tb) by lia.
    rewrite HdropM. apply take_app_length. }
  assert (HdropT : drop (Z.to_nat (8 + M + T)) data = compressed).
  { replace (Z.to_nat (8 + M + T)) with (Z.to_nat (8 + M) + length tb)%nat by lia.
    rewrite <- drop_drop, HdropM. apply drop_app_length. }
  rewrite Hslice1, Hslice2, HdropT.
  subst mb tb. rewrite Hm. cbn [mbind completion_bind]. rewrite Ht. done.
Qed.

(** Compressing a file, downloading the container and decompressing it. *)
Lemma container_roundtrip (P : Platform) (file : File.t) (random : Q) (r : Result.t) (B : list Z) :
  huffmanCompress P (Some file) = Normal r ->
  huffmanDecompress (Result.compressed r) (Result.tree r)
    (Result.padding r) (Result.originalSize r) = Normal B ->
  Result.tree r <> None ->
  (forall metadata treeData compressed,
      containerParts P file random = Some (metadata, treeData, compressed) ->
      codec_faithful P metadata treeData) ->
  exists container,
    compressToContainer P file random = Some container /\
    forall name, decompressContainer P name container = Some B.
Proof.
  intros Hr Hd Htree Hcodec.
  destruct (adjustResult_payload r random) as (Hc & Ht & Hp & Ho & _).
  unfold compressToContainer, downloadCompressed, processFile. rewrite Hr.
  cbn [result]. eexists. split; [done|]. intros name.
  unfold decompressContainer, processFile. cbn [File.arrayBuffer].
  rewrite readContainer_assemble.
  2:{ eapply Hcodec. unfold containerParts, processFile. by rewrite Hr. }
  rewrite deserialize_serialize, Ht.
  destruct (Result.tree r) as [tree|] eqn:Etree; [|done].
  cbn [containerMetadata Meta.padding Meta.originalSize].
  rewrite Hc, Hp, Ho, Hd. done.
Qed.

Lemma huffman_roundtrip_tree (P : Platform) (file : File.t) (r : Result.t) :
  File.arrayBuffer file <> [] ->
  huffmanCompress P (Some file) = Normal r -> Result.tree r <> None.
Proof.
  intros Hne. unfold huffmanCompress. cbv zeta.
  destruct (Object_keys _) as [|k1 [|k2 ks]] eqn:Hkeys.
  - destruct (buildHuffmanTree _) as [tree|]; [|done].
    cbn [buildCodes mbind completion_bind]. by intros [= <-].
  - by intros [= <-].
  - destruct (buildHuffmanTree _) as [tree|]; [|done].
    cbn [buildCodes mbind completion_bind]. by intros [= <-].
Qed.

(** ** The adjustment of the displayed statistics *)

Lemma adjustResult_small_ratio (r : Result.t) (random : Q) :
  Result.compressionRatio r <= 2000 -> adjustResult r random = r.
Proof.
  intros Hratio. unfold adjustResult.
  assert (Hgate : Qle_bool (parseFloat 2 (Result.compressionRatio r)) 20%Q = true).
  { apply Qle_bool_iff. unfold parseFloat, Qle. simpl. lia. }
  by rewrite Hgate.
Qed.

(** * The claims *)

(** Closes [Forall byte_ok l] for a literal buffer [l]. *)
Ltac literal_bytes :=
  repeat (apply Forall_cons; split; [unfold byte_ok; simpl; lia|]); constructor.

(** C10. The forward RLE transform never expands its input. The output of
    [preprocessData] is at most as long as the buffer; and at each position
    the transform measures a run of [count] copies of the current byte
    (between 1 and 255, ended by the end of the buffer, a different byte or
    the cap), emits it literally, at the same length, when [count < 4], and
    replaces it by the three bytes 255, [count], byte when [count >= 4],
    then goes on after the run. *)
Theorem preprocessData_never_expands (B : list Z) :
  (length (preprocessData B) <= length B)%nat /\
  match B with
  | [] => preprocessData B = []
  | c :: rest =>
      let count := run_count c rest 1 in
      (1 <= count <= 255)%nat /\
      B = replicate count c ++ drop count B /\
      (count = 255%nat \/ drop count B = [] \/
       exists b tl, drop count B = b :: tl /\ b <> c) /\
      preprocessData B =
        (if (4 <=? count)%nat
         then [255; to_uint8 (Z.of_nat count); to_uint8 c]
         else replicate count (to_uint8 c))
        ++ preprocessData (drop count B)
  end.
Proof.
  split.
  - unfold preprocessData, Uint8Array_from. rewrite length_map.
    apply rle_loop_length.
  - destruct B as [|c rest]; [done|]. intros count.
    pose proof (run_count_bounds c rest 1) as Hb.
    pose proof (run_count_cap c rest 1) as Hc.
    pose proof (run_count_maximal c rest 1) as Hm. cbv zeta in Hm.
    fold count in Hb, Hc, Hm.
    split; [lia|]. split; [apply run_count_data|]. split.
    + replace (drop count (c :: rest)) with (drop (count - 1) rest)
        by (destruct count; [lia|]; simpl; f_equal; lia).
      destruct Hm as [H|[H|H]]; [by left|lia|by right].
    + unfold preprocessData, Uint8Array_from. cbn [length rle_loop]. cbv zeta.
      fold count.
      rewrite (rle_loop_fuel (length rest)).
      2:{ rewrite length_drop. simpl. lia. }
      destruct (4 <=? count)%nat.
      * done.
      * rewrite map_app. f_equal. by rewrite <- fmap_replicate.
Qed.

(** C2 (the code at the failing input). On the buffer [255; 1; 2] the
    forward transform emits the three bytes literally, and the inverse
    transform, the loop under the comment "Reverse RLE preprocessing", reads
    them as an escape triplet and returns one copy of the byte 2, not the
    buffer. A byte 255 that lies in a run of four is collapsed into a
    triplet and comes back: [255; 255; 255; 255] is restored. *)
Theorem rle_roundtrip_fails_on_literal_sentinel :
  Forall byte_ok [255; 1; 2] /\
  preprocessData [255; 1; 2] = [255; 1; 2] /\
  reverseRLE (preprocessData [255; 1; 2]) = [2] /\
  reverseRLE (preprocessData [255; 1; 2]) <> [255; 1; 2] /\
  preprocessData [255; 255; 255; 255] = [255; 4; 255] /\
  reverseRLE (preprocessData [255; 255; 255; 255]) = [255; 255; 255; 255].
Proof.
  split; [|split; [|split; [|split; [|split]]]]; try reflexivity.
  - literal_bytes.
  - discriminate.
Qed.

(** C9. For every string of binary digits, [packBits] returns a padding
    count between 0 and 7, and [unpackBits] applied to the packed bytes and
    that padding count gives the string back. *)
Theorem packBits_unpackBits (bits : list ascii) :
  Forall is_bit bits ->
  0 <= Packed.padding (packBits bits) <= 7 /\
  unpackBits (Packed.bytes (packBits bits)) (Packed.padding (packBits bits)) = bits.
Proof.
  intros Hbits. split; [apply packBits_padding_bound|by apply unpackBits_packBits].
Qed.

Lemma packBits_unpackBits_witness :
  0 <= Packed.padding (packBits ["1"; "0"; "1"]%char) <= 7 /\
  unpackBits (Packed.bytes (packBits ["1"; "0"; "1"]%char))
             (Packed.padding (packBits ["1"; "0"; "1"]%char)) = ["1"; "0"; "1"]%char.
Proof.
  apply packBits_unpackBits.
  repeat (apply Forall_cons; split; [(by left) || (by right)|]). constructor.
Defined.

(** C8. For every code table that [buildCodes] produces from a tree built by
    [buildHuffmanTree]: the table has a code for exactly the byte values of
    the frequency table, every code is a non-empty string of the characters
    '0' and '1', no code is a prefix of the code of another byte value, and
    a tree with a single leaf gives that leaf's byte value the code "0"
    (as does the bare leaf that [huffmanCompress] uses as a tree). *)
Theorem codes_prefix_free (freqTable : gmap Z Z) (tree : HuffmanNode) :
  buildHuffmanTree freqTable = Some tree ->
  exists codes,
    buildCodes (Some tree) = Normal codes /\
    (forall c, is_Some (codes !! c) <-> is_Some (freqTable !! c)) /\
    (forall c code, codes !! c = Some code -> code <> [] /\ Forall is_bit code) /\
    (forall c1 c2 code1 code2,
        codes !! c1 = Some code1 -> codes !! c2 = Some code2 ->
        code1 `prefix_of` code2 -> c1 = c2) /\
    (forall c, leaves tree = [c] -> codes = {[ c := ["0"%char] ]}) /\
    (forall c f, buildCodes (Some (Node (Some c) f None None))
                 = Normal {[ c := ["0"%char] ]}).
Proof.
  intros Htree. exists (traverse tree [] ∅). split; [done|].
  pose proof (buildHuffmanTree_leaves freqTable) as Hleaves.
  rewrite Htree in Hleaves.
  split; [|split; [|split; [|split]]].
  - intros c. rewrite <- elem_of_Object_keys, <- Hleaves. split.
    + intros [q Hq].
      destruct (traverse_lookup _ _ _ _ _ Hq) as [?|(p & Hp & _)]; [done|].
      by eapply path_to_leaves.
    + apply traverse_covers.
  - intros c code Hc.
    destruct (traverse_lookup _ _ _ _ _ Hc) as [?|(p & Hp & ->)]; [done|].
    split; [apply code_or_0_nonempty|].
    apply code_or_0_bits. by eapply path_to_bits.
  - intros c1 c2 code1 code2. apply traverse_prefix_free.
  - intros c Hc. rewrite Hc in Hleaves.
    apply Permutation_singleton_l in Hleaves.
    unfold Object_keys in Hleaves.
    destruct (Object_entries freqTable) as [|[k f] [|? ?]] eqn:He; try done.
    simpl in Hleaves. injection Hleaves as ->.
    unfold buildHuffmanTree in Htree. rewrite He in Htree.
    injection Htree as <-. done.
  - done.
Qed.

Lemma codes_prefix_free_witness :
  exists codes,
    buildCodes (Some
      (Node None 3
         (Some (Node (Some 65) 1 None None))
         (Some (Node (Some 66) 2 None None)))) = Normal codes /\
    (forall c, is_Some (codes !! c) <-> is_Some (buildFrequencyTable [66; 65; 66] !! c)) /\
    (forall c code, codes !! c = Some code -> code <> [] /\ Forall is_bit code) /\
    (forall c1 c2 code1 code2,
        codes !! c1 = Some code1 -> codes !! c2 = Some code2 ->
        code1 `prefix_of` code2 -> c1 = c2) /\
    (forall c, leaves (Node None 3
         (Some (Node (Some 65) 1 None None))
         (Some (Node (Some 66) 2 None None))) = [c] -> codes = {[ c := ["0"%char] ]}) /\
    (forall c f, buildCodes (Some (Node (Some c) f None None))
                 = Normal {[ c := ["0"%char] ]}).
Proof.
  apply (codes_prefix_free (buildFrequencyTable [66; 65; 66])).
  vm_compute. reflexivity.
Defined.

(** C7. Decompression rejects a container shorter than 8 bytes, and a
    container whose header declares a metadata length M and a tree length T
    with 8 + M + T beyond the end of the buffer: in both cases [processFile]
    ends in the error state with the message of a malformed [.huf] file and
    produces no decompressed bytes. *)
Theorem decompress_rejects_malformed_container
    (P : Platform) (file : File.t) (random : Q) :
  let data := File.arrayBuffer file in
  (length data < 8)%nat \/
  Z.of_nat (length data) < 8 + getUint32_le data 0 + getUint32_le data 4 ->
  decompressedFile (processFile P decompress file random) = None /\
  exists reason,
    result (processFile P decompress file random)
    = Some (Failed ("Invalid .huf file format: " ++ reason)) /\
    (reason = "File too small to be a valid .huf file"%string \/
     reason = "Invalid .huf file: corrupted header"%string) /\
    ((length data < 8)%nat ->
     reason = "File too small to be a valid .huf file"%string).
Proof.
  intros data Hbad. unfold processFile, readContainer. fold data.
  destruct (Nat.ltb_spec (length data) 8) as [Hshort|Hlong].
  - split; [done|]. eexists. split; [done|]. split; [by left|done].
  - destruct Hbad as [?|Hbad]; [lia|].
    apply Z.ltb_lt in Hbad. rewrite Hbad.
    split; [done|]. eexists. split; [done|]. split; [by right|lia].
Qed.

Lemma decompress_rejects_malformed_container_witness :
  (decompressedFile
     (processFile Reference.platform decompress
        (File.mk "a.huf" [1; 2; 3; 4; 5; 6; 7]) 0%Q) = None /\
   exists reason,
     result (processFile Reference.platform decompress
               (File.mk "a.huf" [1; 2; 3; 4; 5; 6; 7]) 0%Q)
     = Some (Failed ("Invalid .huf file format: " ++ reason)) /\
     (reason = "File too small to be a valid .huf file"%string \/
      reason = "Invalid .huf file: corrupted header"%string) /\
     ((length [1; 2; 3; 4; 5; 6; 7] < 8)%nat ->
      reason = "File too small to be a valid .huf file"%string)) /\
  (decompressedFile
     (processFile Reference.platform decompress
        (File.mk "a.huf" [1; 0; 0; 0; 5; 0; 0; 0; 9; 9]) 0%Q) = None /\
   exists reason,
     result (processFile Reference.platform decompress
               (File.mk "a.huf" [1; 0; 0; 0; 5; 0; 0; 0; 9; 9]) 0%Q)
     = Some (Failed ("Invalid .huf file format: " ++ reason)) /\
     (reason = "File too small to be a valid .huf file"%string \/
      reason = "Invalid .huf file: corrupted header"%string) /\
     ((length [1; 0; 0; 0; 5; 0; 0; 0; 9; 9] < 8)%nat ->
      reason = "File too small to be a valid .huf file"%string)).
Proof.
  split.
  - apply (decompress_rejects_malformed_container Reference.platform
             (File.mk "a.huf" [1; 2; 3; 4; 5; 6; 7]) 0%Q).
    left. simpl. lia.
  - apply (decompress_rejects_malformed_container Reference.platform
             (File.mk "a.huf" [1; 0; 0; 0; 5; 0; 0; 0; 9; 9]) 0%Q).
    right. vm_compute. reflexivity.
Defined.

(** C6 (as stated, refuted). With the tree whose root has a left leaf for
    the byte 7 and no right child, the payload byte 128 with padding 6 is
    the bit string "10": the bit 1 has no child at the root, and
    [huffmanDecompress] returns normally, having dropped that bit and
    decoded the following 0. *)
Lemma decoder_drops_bit_without_child :
  let tree := Node None 1 (Some (Node (Some 7) 1 None None)) None in
  unpackBits [128] 6 = ["1"; "0"]%char /\
  child_for "1" tree = None /\
  huffmanDecompress [128] (Some tree) 6 0 = Normal [7] /\
  ~ (exists e, huffmanDecompress [128] (Some tree) 6 0 = Throw e).
Proof.
  cbv zeta. split; [reflexivity|]. split; [reflexivity|]. split; [reflexivity|].
  intros [e He]. vm_compute in He. discriminate.
Qed.

(** C6 (amended). A bit that has no corresponding child at the current node
    is skipped: the decoder keeps the current node (emitting its byte value
    and returning to the root if it holds one) and goes on with the next
    bit; and for a tree that is not a bare leaf [huffmanDecompress] returns
    normally on every payload. *)
Theorem decoder_skips_bit_without_child
    (tree current : HuffmanNode) (bit : ascii) (rest : list ascii) (result : list Z) :
  child_for bit current = None ->
  decode_loop tree (bit :: rest) current result
  = match char current with
    | Some c => decode_loop tree rest tree (result ++ [c])
    | None => decode_loop tree rest current result
    end /\
  forall compressedData padding originalSize,
    char tree = None ->
    huffmanDecompress compressedData (Some tree) padding originalSize
    = Normal (reverseRLE (Uint8Array_from
                (decode_loop tree (unpackBits compressedData padding) tree []))).
Proof.
  intros Hchild. split.
  - unfold child_for in Hchild. cbn [decode_loop].
    destruct (Ascii.eqb_spec bit "0") as [->|_].
    + by rewrite Hchild.
    + destruct (Ascii.eqb bit "1"); [by rewrite Hchild|done].
  - intros compressedData padding originalSize Hc.
    destruct tree as [c f l r]. simpl in Hc. by subst.
Qed.

Lemma decoder_skips_bit_without_child_witness :
  let tree := Node None 1 (Some (Node (Some 7) 1 None None)) None in
  decode_loop tree ["1"; "0"]%char tree []
  = match char tree with
    | Some c => decode_loop tree ["0"%char] tree ([] ++ [c])
    | None => decode_loop tree ["0"%char] tree []
    end /\
  forall compressedData padding originalSize,
    char tree = None ->
    huffmanDecompress compressedData (Some tree) padding originalSize
    = Normal (reverseRLE (Uint8Array_from
                (decode_loop tree (unpackBits compressedData padding) tree []))).
Proof.
  apply (decoder_skips_bit_without_child
           (Node None 1 (Some (Node (Some 7) 1 None None)) None)).
  reflexivity.
Defined.

(** C5 (the code at the failing input). For a file of length zero
    [huffmanCompress] does not return: the frequency table is empty,
    [buildHuffmanTree] returns [undefined], and [buildCodes] throws a
    [TypeError] on it, which [processFile] reports as an error. The
    degenerate zero-size result is returned only when no file is given. *)
Theorem huffmanCompress_empty_file_throws (P : Platform) (name : string) (random : Q) :
  buildHuffmanTree (buildFrequencyTable (preprocessData [])) = None /\
  huffmanCompress P (Some (File.mk name []))
  = Throw (TypeError "Cannot read properties of undefined (reading 'char')") /\
  result (processFile P compress (File.mk name []) random)
  = Some (Failed "Cannot read properties of undefined (reading 'char')") /\
  compressToContainer P (File.mk name []) random = None /\
  huffmanCompress P None = Normal noFileResult /\
  Result.originalSize noFileResult = 0 /\ Result.compressedSize noFileResult = 0.
Proof. repeat split; reflexivity. Qed.

(** C1 (the code at the failing input). On the reference platform, whose
    text codec gives back the metadata and the tree of this artifact, the
    container of the buffer [255; 1; 2] decompresses to the single byte 2:
    the forward RLE transform emits the three bytes literally and the
    inverse transform reads them as an escape triplet. So decompression does
    not return every buffer that was compressed. *)
Theorem roundtrip_fails_on_literal_sentinel :
  let file := File.mk "a.pdf" [255; 1; 2] in
  (exists container,
     compressToContainer Reference.platform file 0%Q = Some container /\
     (forall metadata treeData compressed,
         containerParts Reference.platform file 0%Q = Some (metadata, treeData, compressed) ->
         codec_faithful Reference.platform metadata treeData) /\
     decompressContainer Reference.platform "a.huf" container = Some [2]) /\
  ~ (forall (P : Platform) (file : File.t) (random : Q),
        Forall byte_ok (File.arrayBuffer file) ->
        (forall metadata treeData compressed,
            containerParts P file random = Some (metadata, treeData, compressed) ->
            codec_faithful P metadata treeData) ->
        exists container,
          compressToContainer P file random = Some container /\
          forall name, decompressContainer P name container
                       = Some (File.arrayBuffer file)).
Proof.
  cbv zeta.
  assert (Hcodec : forall metadata treeData compressed,
    containerParts Reference.platform (File.mk "a.pdf" [255; 1; 2]) 0%Q
    = Some (metadata, treeData, compressed) ->
    codec_faithful Reference.platform metadata treeData).
  { intros metadata treeData compressed H. vm_compute in H.
    injection H as <- <- <-. repeat split; vm_compute; reflexivity. }
  split.
  - eexists. split; [vm_compute; reflexivity|]. split; [exact Hcodec|].
    vm_compute. reflexivity.
  - intros Hclaim.
    destruct (Hclaim Reference.platform (File.mk "a.pdf" [255; 1; 2]) 0%Q)
      as (container & Hc & Hd).
    + literal_bytes.
    + exact Hcodec.
    + specialize (Hd "a.huf"%string). vm_compute in Hc.
      injection Hc as <-. vm_compute in Hd. discriminate.
Qed.

(** C4 (as stated, refuted). Compressing the five bytes [7; 7; 7; 7; 7]
    does not take the single-leaf path: there is a platform (in fact any)
    on which the result is not the single-leaf one. *)
Lemma five_sevens_not_single_leaf :
  ~ (forall P : Platform,
        exists r,
          huffmanCompress P (Some (File.mk "a.pdf" [7; 7; 7; 7; 7])) = Normal r /\
          Result.singleChar r = true /\
          Result.tree r = Some (Node (Some 7) 5 None None)).
Proof.
  intros Hclaim. destruct (Hclaim Reference.platform) as (r & Hr & Hsingle & _).
  vm_compute in Hr. injection Hr as <-. discriminate Hsingle.
Qed.

(** C4 (amended). For the input [7; 7; 7; 7; 7] the RLE transform yields the
    triplet [255; 5; 7] (value 7 with count 5), which has three distinct
    byte values: compression takes the general Huffman path, with a tree of
    three leaves and the one payload byte 88 with 3 bits of padding, and
    decompressing that artifact reproduces exactly five bytes of value 7. *)
Theorem five_sevens_roundtrip (P : Platform) (name : string) :
  preprocessData [7; 7; 7; 7; 7] = [255; 5; 7] /\
  exists r,
    huffmanCompress P (Some (File.mk name [7; 7; 7; 7; 7])) = Normal r /\
    Result.singleChar r = false /\
    Result.uniqueBytes r = 3 /\
    Result.tree r
    = Some (Node None 3
              (Some (Node (Some 255) 1 None None))
              (Some (Node None 2
                       (Some (Node (Some 5) 1 None None))
                       (Some (Node (Some 7) 1 None None))))) /\
    Result.compressed r = [88] /\
    Result.padding r = 3 /\
    Result.originalSize r = 5 /\
    huffmanDecompress (Result.compressed r) (Result.tree r)
      (Result.padding r) (Result.originalSize r) = Normal [7; 7; 7; 7; 7].
Proof.
  split; [reflexivity|].
  eexists. split; [reflexivity|]. repeat split; reflexivity.
Qed.

(** C3 (as stated, refuted). Two runs on the same eight bytes, in which
    [Math.random()] returns 0 and 1/2, give the same tree and payload but
    metadata with the compression ratios "15.00" and "17.50", and so two
    different containers. *)
Lemma containers_differ_between_runs :
  let file := File.mk "a.pdf" [1; 1; 1; 1; 2; 2; 2; 2] in
  (exists m1 m2 t c,
      containerParts Reference.platform file 0%Q = Some (m1, t, c) /\
      containerParts Reference.platform file (1 # 2)%Q = Some (m2, t, c) /\
      Meta.compressionRatio m1 = 1500 /\
      Meta.compressionRatio m2 = 1750 /\
      m1 <> m2) /\
  compressToContainer Reference.platform file 0%Q
  <> compressToContainer Reference.platform file (1 # 2)%Q /\
  ~ (forall (P : Platform) (file : File.t) (random1 random2 : Q),
        compressToContainer P file random1 = compressToContainer P file random2).
Proof.
  cbv zeta. split; [|split].
  - do 4 eexists. split; [vm_compute; reflexivity|].
    split; [vm_compute; reflexivity|]. split; [reflexivity|].
    split; [reflexivity|]. discriminate.
  - vm_compute. discriminate.
  - intros Hclaim.
    specialize (Hclaim Reference.platform
                  (File.mk "a.pdf" [1; 1; 1; 1; 2; 2; 2; 2]) 0%Q (1 # 2)%Q).
    vm_compute in Hclaim. discriminate.
Qed.

(** C3 (amended). Two runs of the compression pipeline on one input, with
    whatever values [Math.random()] returns in each, both fail or both
    produce a container; the two containers have the same serialized tree
    bytes and the same packed payload bytes, and their metadata agree on the
    padding count, the original size, the number of distinct bytes, the
    entropy, the file name and the version. The compression ratio and the
    efficiency of the metadata are the ones [processFile] derives from the
    random value when the computed ratio exceeds 20 percent; when the
    computed ratio is at most 20 percent, the metadata are identical and the
    containers are byte-identical. *)
Theorem compression_deterministic_up_to_statistics
    (P : Platform) (file : File.t) (random1 random2 : Q) :
  match containerParts P file random1, containerParts P file random2 with
  | Some (m1, t1, c1), Some (m2, t2, c2) =>
      encode_tree P t1 = encode_tree P t2 /\
      c1 = c2 /\
      Meta.padding m1 = Meta.padding m2 /\
      Meta.originalSize m1 = Meta.originalSize m2 /\
      Meta.uniqueBytes m1 = Meta.uniqueBytes m2 /\
      Meta.entropy m1 = Meta.entropy m2 /\
      Meta.originalFileName m1 = Meta.originalFileName m2 /\
      Meta.version m1 = Meta.version m2 /\
      (exists container1 container2,
          compressToContainer P file random1 = Some container1 /\
          compressToContainer P file random2 = Some container2) /\
      (forall r,
          huffmanCompress P (Some file) = Normal r ->
          Result.compressionRatio r <= 2000 ->
          m1 = m2 /\
          compressToContainer P file random1 = compressToContainer P file random2)
  | None, None =>
      compressToContainer P file random1 = None /\
      compressToContainer P file random2 = None
  | _, _ => False
  end.
Proof.
  unfold containerParts, compressToContainer, downloadCompressed, processFile.
  destruct (huffmanCompress P (Some file)) as [r|e]; cbn [result]; [|done].
  destruct (adjustResult_payload r random1) as (Hc1 & Ht1 & Hp1 & Ho1 & Hu1 & He1).
  destruct (adjustResult_payload r random2) as (Hc2 & Ht2 & Hp2 & Ho2 & Hu2 & He2).
  cbn [containerMetadata Meta.padding Meta.originalSize Meta.uniqueBytes
       Meta.entropy Meta.originalFileName Meta.version].
  rewrite Hc1, Hc2, Ht1, Ht2, Hp1, Hp2, Ho1, Ho2, Hu1, Hu2, He1, He2.
  repeat (split; [done|]). split; [by do 2 eexists|].
  intros r' [= <-] Hratio.
  rewrite !(adjustResult_small_ratio r) by done. done.
Qed.

Lemma compression_deterministic_up_to_statistics_witness :
  compressToContainer Reference.platform (File.mk "a.pdf" [7]) 0%Q
  = compressToContainer Reference.platform (File.mk "a.pdf" [7]) (1 # 2)%Q.
Proof.
  pose proof (compression_deterministic_up_to_statistics Reference.platform
                (File.mk "a.pdf" [7]) 0%Q (1 # 2)%Q) as H.
  assert (E1 : exists parts,
             containerParts Reference.platform (File.mk "a.pdf" [7]) 0%Q = Some parts)
    by (eexists; vm_compute; reflexivity).
  assert (E2 : exists parts,
             containerParts Reference.platform (File.mk "a.pdf" [7]) (1 # 2)%Q = Some parts)
    by (eexists; vm_compute; reflexivity).
  destruct E1 as [[[m1 t1] c1] E1]. destruct E2 as [[[m2 t2] c2] E2].
  rewrite E1, E2 in H.
  destruct H as (_ & _ & _ & _ & _ & _ & _ & _ & _ & H).
  eapply proj2, H.
  - vm_compute. reflexivity.
  - vm_compute. discriminate.
Defined.


(** * Further properties *)

(** ** The priority queue *)

Lemma compareNodes_total a b : compareNodes a b <= 0 \/ compareNodes b a <= 0.
Proof.
  unfold compareNodes.
  destruct (Z.eqb_spec (freq a) (freq b)) as [E|E];
    destruct (Z.eqb_spec (freq b) (freq a)) as [E'|E']; simpl; try lia.
  destruct (char a), (char b); simpl; lia.
Qed.

Lemma compareNodes_trans a b c :
  compareNodes a b <= 0 -> compareNodes b c <= 0 -> compareNodes a c <= 0.
Proof.
  unfold compareNodes.
  destruct (Z.eqb_spec (freq a) (freq b)), (Z.eqb_spec (freq b) (freq c)),
    (Z.eqb_spec (freq a) (freq c)); simpl; try lia;
    destruct (char a), (char b), (char c); simpl; lia.
Qed.

Lemma compareNodes_gt a b : 0 < compareNodes a b -> compareNodes b a < 0.
Proof.
  unfold compareNodes.
  destruct (Z.eqb_spec (freq a) (freq b)), (Z.eqb_spec (freq b) (freq a));
    simpl; try lia.
  destruct (char a), (char b); simpl; lia.
Qed.

Lemma compareNodes_freq a b : compareNodes a b <= 0 -> freq a <= freq b.
Proof.
  unfold compareNodes. destruct (Z.eqb_spec (freq a) (freq b)); simpl; lia.
Qed.

Section Sorting.
Context {A : Type} (cmp : A -> A -> Z).
Hypothesis cmp_total : forall a b, cmp a b <= 0 \/ cmp b a <= 0.
Hypothesis cmp_trans : forall a b c, cmp a b <= 0 -> cmp b c <= 0 -> cmp a c <= 0.

Lemma sort_insert_sorted x l :
  StronglySorted (fun a b => cmp a b <= 0) l ->
  StronglySorted (fun a b => cmp a b <= 0) (sort_insert cmp x l).
Proof.
  induction 1 as [|y l Hl IH Hy]; simpl.
  - repeat constructor.
  - destruct (Z.leb_spec (cmp x y) 0) as [Hxy|Hxy].
    + constructor; [by constructor|].
      constructor; [done|]. eapply Forall_impl; [exact Hy|].
      intros z Hz. simpl in *. by eapply cmp_trans.
    + constructor; [done|].
      rewrite sort_insert_perm. constructor; [|done].
      destruct (cmp_total x y); [lia|done].
Qed.

Lemma Array_sort_sorted l :
  StronglySorted (fun a b => cmp a b <= 0) (Array_sort cmp l).
Proof.
  unfold Array_sort. induction l as [|x l IH]; simpl; [constructor|].
  by apply sort_insert_sorted.
Qed.
End Sorting.

(** X1. Whatever the array held, after [enqueue] it holds the same nodes
    plus the new one, in the order of the comparator; so the node that
    [dequeue] then removes is a least one: no remaining node is lighter, and
    at equal weight a leaf comes before an internal node and leaves come in
    ascending byte value. *)
Theorem enqueue_then_dequeue_min (item : HuffmanNode) (items : list HuffmanNode) :
  enqueue item items ≡ₚ item :: items /\
  StronglySorted (fun a b => compareNodes a b <= 0) (enqueue item items) /\
  PriorityQueue.size (enqueue item items) = S (PriorityQueue.size items) /\
  exists first rest,
    PriorityQueue.dequeue (enqueue item items) = (Some first, rest) /\
    first :: rest ≡ₚ item :: items /\
    Forall (fun x => compareNodes first x <= 0 /\ freq first <= freq x) rest.
Proof.
  pose proof (enqueue_perm item items) as Hperm.
  pose proof (Array_sort_sorted compareNodes compareNodes_total compareNodes_trans
                (items ++ [item])) as Hsorted.
  fold (enqueue item items) in Hsorted.
  split; [done|]. split; [done|]. split.
  { unfold PriorityQueue.size. by rewrite Hperm. }
  destruct (enqueue item items) as [|first rest] eqn:E.
  - by apply Permutation_nil_cons in Hperm.
  - exists first, rest. split; [done|]. split; [done|].
    apply StronglySorted_inv in Hsorted as [_ Hfirst].
    eapply Forall_impl; [exact Hfirst|]. intros x Hx. simpl in Hx.
    split; [done|by apply compareNodes_freq].
Qed.

Lemma sort_insert_front (x : HuffmanNode) (l : list HuffmanNode) :
  Forall (fun y => compareNodes x y <= 0) l -> sort_insert compareNodes x l = x :: l.
Proof.
  destruct l as [|y l]; [done|]. intros Hall.
  apply Forall_cons in Hall as [Hy _]. simpl.
  by destruct (Z.leb_spec (compareNodes x y) 0); [|lia].
Qed.

(** X2. Enqueueing into an ordered queue keeps the order of the nodes that
    were there and puts the new node after every node that does not compare
    greater, so nodes that compare equal (internal nodes of equal weight)
    leave the queue in the order they entered it. *)
Theorem enqueue_after_equals (item : HuffmanNode) (items : list HuffmanNode) :
  StronglySorted (fun a b => compareNodes a b <= 0) items ->
  exists before after,
    items = before ++ after /\
    enqueue item items = before ++ item :: after /\
    Forall (fun y => compareNodes y item <= 0) before /\
    Forall (fun y => compareNodes item y < 0) after.
Proof.
  unfold enqueue, Array_sort. rewrite foldr_app. simpl.
  induction 1 as [|y items Hsorted IH Hy].
  - exists [], []. by repeat split.
  - destruct IH as (before & after & -> & Hins & Hbefore & Hafter).
    simpl. rewrite Hins.
    apply Forall_app in Hy as [Hyb Hya].
    destruct (Z.leb_spec (compareNodes y item) 0) as [Hle|Hgt].
    + exists (y :: before), after. split; [done|]. split.
      * rewrite (sort_insert_front y (before ++ item :: after)); [done|].
        apply Forall_app. split; [done|]. by constructor.
      * split; [by constructor|done].
    + destruct before as [|z before].
      * exists [], (y :: after). split; [done|]. split.
        -- simpl. destruct (Z.leb_spec (compareNodes y item) 0); [lia|].
           by rewrite sort_insert_front.
        -- split; [done|]. constructor; [by apply compareNodes_gt|done].
      * apply Forall_cons in Hbefore as [Hz _].
        apply Forall_cons in Hyb as [Hyz _].
        pose proof (compareNodes_trans _ _ _ Hyz Hz). lia.
Qed.

Lemma enqueue_after_equals_witness :
  exists before after,
    [Node (Some 1) 1 None None; Node None 2 None None] = before ++ after /\
    enqueue (Node None 2 (Some (Node (Some 5) 1 None None)) None)
      [Node (Some 1) 1 None None; Node None 2 None None]
    = before ++ Node None 2 (Some (Node (Some 5) 1 None None)) None :: after /\
    Forall (fun y => compareNodes y
              (Node None 2 (Some (Node (Some 5) 1 None None)) None) <= 0) before /\
    Forall (fun y => compareNodes
              (Node None 2 (Some (Node (Some 5) 1 None None)) None) y < 0) after.
Proof.
  apply enqueue_after_equals.
  repeat constructor; vm_compute; discriminate.
Defined.

(** ** The frequency table *)

Lemma count_fold_lookup (data : list Z) (acc : gmap Z Z) (b : Z) :
  foldl (fun freq byte => <[byte := or_zero (freq !! byte) + 1]> freq) acc data !! b
  = match filter (fun x => x = b) data with
    | [] => acc !! b
    | occ => Some (or_zero (acc !! b) + Z.of_nat (length occ))
    end.
Proof.
  revert acc. induction data as [|x data IH]; intros acc; [done|].
  cbn [foldl]. rewrite IH. rewrite filter_cons.
  destruct (decide (x = b)) as [->|Hne].
  - rewrite lookup_insert_eq. cbn [or_zero default].
    destruct (filter _ data) as [|y occ]; simpl; f_equal; lia.
  - by rewrite lookup_insert_ne.
Qed.

Lemma boost_lookup (freq : gmap Z Z) (pattern b : Z) :
  boost freq pattern !! b
  = if decide (b = pattern)
    then (fun f => if f =? 0 then f else floor_times_1_2 f) <$> freq !! b
    else freq !! b.
Proof.
  unfold boost. case_decide as Hb.
  - subst. destruct (freq !! pattern) as [f|] eqn:Hf; [|by rewrite Hf].
    destruct (Z.eqb_spec f 0).
    + rewrite Hf. simpl. by destruct (Z.eqb_spec f 0).
    + rewrite lookup_insert_eq. simpl. by destruct (Z.eqb_spec f 0).
  - destruct (freq !! pattern) as [f|]; [|done].
    destruct (f =? 0); [done|]. by rewrite lookup_insert_ne.
Qed.

Lemma boosts_lookup (patterns : list Z) (freq : gmap Z Z) (b : Z) :
  NoDup patterns ->
  foldl boost freq patterns !! b
  = if decide (b ∈ patterns)
    then (fun f => if f =? 0 then f else floor_times_1_2 f) <$> freq !! b
    else freq !! b.
Proof.
  intros Hnd. revert freq. induction Hnd as [|pat patterns Hnotin Hnd IH]; intros freq.
  - cbn [foldl]. rewrite decide_False; [done|]. apply not_elem_of_nil.
  - cbn [foldl]. rewrite IH, boost_lookup.
    destruct (decide (b = pat)) as [->|Hne].
    + rewrite decide_False by done. rewrite decide_True by by left. done.
    + destruct (decide (b ∈ patterns)) as [Hin|Hout].
      * rewrite decide_True by by right. done.
      * rewrite decide_False; [done|].
        intros [?|?]%elem_of_cons; done.
Qed.

(** X3. The frequency table has an entry exactly for the byte values that
    occur in the buffer. The entry of a byte value that occurs n times is n,
    except for the nine marker bytes of [pdfPatterns], whose entry is the
    integer part of 1.2 n; every entry is at least 1. *)
Theorem buildFrequencyTable_counts (data : list Z) (b : Z) :
  let n := Z.of_nat (length (filter (fun x => x = b) data)) in
  buildFrequencyTable data !! b
  = (if n =? 0 then None
     else Some (if decide (b ∈ pdfPatterns) then (6 * n) / 5 else n)) /\
  (forall f, buildFrequencyTable data !! b = Some f -> 1 <= f).
Proof.
  intros n.
  assert (Hlookup : buildFrequencyTable data !! b
            = if n =? 0 then None
              else Some (if decide (b ∈ pdfPatterns) then (6 * n) / 5 else n)).
  { unfold buildFrequencyTable. cbv zeta.
    rewrite boosts_lookup.
    2:{ apply (bool_decide_unpack (NoDup pdfPatterns)). vm_compute. exact I. }
    rewrite count_fold_lookup, lookup_empty. subst n.
    destruct (filter _ data) as [|y occ]; simpl.
    - by case_decide.
    - cbn [or_zero default].
      set (m := Z.pos (Pos.of_succ_nat (length occ))).
      replace (0 + m) with m by lia.
      case_decide; [|done]. simpl. unfold floor_times_1_2.
      destruct (Z.eqb_spec m 0); [subst m; lia|done]. }
  split; [done|].
  intros f. rewrite Hlookup.
  destruct (Z.eqb_spec n 0); [done|]. intros [= <-].
  assert (1 <= n) by lia.
  case_decide; [|done]. apply Z.div_le_lower_bound; lia.
Qed.

(** ** The tree builder *)

Lemma leafNode_entries (l : list (Z * Z)) : map leafNode l ≫= leaf_entries = l.
Proof.
  induction l as [|[c f] l IH]; [done|].
  rewrite map_cons, bind_cons, IH. done.
Qed.

Lemma leaves_leaf_entries (node : HuffmanNode) : leaves node = (leaf_entries node).*1.
Proof.
  induction node as [c f l r IHl IHr] using HuffmanNode_induction.
  destruct c as [c|]; [done|]. cbn [leaves leaf_entries]. rewrite fmap_app.
  f_equal.
  - destruct l as [l'|]; [|done]. by apply IHl.
  - destruct r as [r'|]; [|done]. by apply IHr.
Qed.

Lemma Zsum_app (l k : list Z) : Zsum (l ++ k) = Zsum l + Zsum k.
Proof. induction l as [|x l IH]; simpl; [done|]. unfold Zsum in *. simpl. lia. Qed.

Lemma Zsum_perm (l k : list Z) : l ≡ₚ k -> Zsum l = Zsum k.
Proof. induction 1; unfold Zsum in *; simpl; lia. Qed.

Lemma full_tree_weight (node : HuffmanNode) :
  full_tree node -> freq node = Zsum (leaf_entries node).*2.
Proof.
  induction 1 as [c f|f l r Hl IHl Hr IHr ->]; simpl.
  - unfold Zsum. simpl. lia.
  - rewrite fmap_app, Zsum_app. lia.
Qed.

Lemma full_tree_root (node : HuffmanNode) :
  full_tree node -> (2 <= length (leaf_entries node))%nat -> char node = None.
Proof. destruct 1; simpl; [lia|done]. Qed.

Lemma merge_loop_full fuel : forall pq,
  (length pq <= S fuel)%nat -> pq <> [] -> Forall full_tree pq ->
  exists root,
    merge_loop fuel pq = [root] /\ full_tree root /\
    leaf_entries root ≡ₚ pq ≫= leaf_entries.
Proof.
  induction fuel as [|fuel IH]; intros pq Hlen Hne Hfull.
  - destruct pq as [|x [|y pq]]; simpl in *; [done| |lia].
    exists x. rewrite app_nil_r. split; [done|]. split; [|done].
    by apply Forall_cons in Hfull as [? _].
  - destruct pq as [|x [|y pq]]; [done| |].
    + exists x. simpl. rewrite app_nil_r. split; [done|]. split; [|done].
      by apply Forall_cons in Hfull as [? _].
    + cbn [merge_loop]. cbv zeta.
      apply Forall_cons in Hfull as [Hx Hfull].
      apply Forall_cons in Hfull as [Hy Hfull].
      set (merged := Node None (freq x + freq y) (Some x) (Some y)).
      assert (Hmerged : full_tree merged) by by constructor.
      destruct (IH (enqueue merged pq)) as (root & Hroot & Hfr & Hentries).
      * rewrite enqueue_perm. simpl in *. lia.
      * intros Hnil. pose proof (enqueue_perm merged pq) as Hp.
        rewrite Hnil in Hp. by apply Permutation_nil_cons in Hp.
      * rewrite enqueue_perm. by constructor.
      * exists root. split; [done|]. split; [done|].
        rewrite Hentries, enqueue_perm. simpl. by rewrite app_assoc.
Qed.

(** The shape of what [buildHuffmanTree] returns, by the number of entries
    of the table. *)
Lemma buildHuffmanTree_shape (freqTable : gmap Z Z) :
  match buildHuffmanTree freqTable with
  | None => freqTable = ∅
  | Some tree =>
      leaf_entries tree ≡ₚ map_to_list freqTable /\
      ((exists e, map_to_list freqTable = [e] /\
                  tree = Node None e.2 (Some (leafNode e)) None) \/
       ((2 <= length (map_to_list freqTable))%nat /\ full_tree tree))
  end.
Proof.
  unfold buildHuffmanTree. cbv zeta.
  set (sortedFreqs := Array_sort _ (Object_entries freqTable)).
  assert (Hsorted : sortedFreqs ≡ₚ map_to_list freqTable).
  { subst sortedFreqs. by rewrite Array_sort_perm, Object_entries_perm. }
  set (pq := foldl _ [] sortedFreqs).
  assert (Hpq : pq ≡ₚ map leafNode sortedFreqs).
  { subst pq. by rewrite foldl_enqueue_perm, app_nil_l. }
  assert (Hentries : pq ≫= leaf_entries ≡ₚ map_to_list freqTable).
  { by rewrite Hpq, leafNode_entries. }
  assert (Hfull : Forall full_tree pq).
  { rewrite Hpq. apply Forall_fmap, Forall_true. intros [c f]. constructor. }
  clearbody pq. destruct pq as [|x [|y pq']].
  - apply Permutation_nil in Hentries. by apply map_to_list_empty_iff.
  - split; [simpl in *; by rewrite app_nil_r in *|]. left.
    apply Permutation_singleton_l in Hpq.
    destruct sortedFreqs as [|e [|? ?]]; try done.
    apply Permutation_singleton_l in Hsorted.
    exists e. split; [done|]. injection Hpq as ->. done.
  - destruct (merge_loop_full (length (x :: y :: pq')) (x :: y :: pq'))
      as (root & -> & Hroot & Hleaves); [lia|done|done|].
    simpl. split; [by rewrite Hleaves|]. right. split; [|done].
    rewrite <- Hentries, Hpq, leafNode_entries.
    rewrite <- (length_fmap leafNode), <- Hpq. simpl. lia.
Qed.

(** X4. [buildHuffmanTree] returns [undefined] exactly for the empty table.
    Otherwise the leaves of the tree carry exactly the entries of the table,
    byte value and count, each once: no byte value of the table is missing
    from the tree and none occurs twice. *)
Theorem buildHuffmanTree_leaves_are_entries (freqTable : gmap Z Z) :
  (buildHuffmanTree freqTable = None <-> freqTable = ∅) /\
  forall tree,
    buildHuffmanTree freqTable = Some tree ->
    leaf_entries tree ≡ₚ map_to_list freqTable /\
    NoDup (leaves tree) /\
    (forall c f, (c, f) ∈ leaf_entries tree <-> freqTable !! c = Some f).
Proof.
  pose proof (buildHuffmanTree_shape freqTable) as Hshape.
  split.
  - split.
    + intros Hnone. by rewrite Hnone in Hshape.
    + intros ->. unfold buildHuffmanTree, Object_entries.
      by rewrite map_to_list_empty.
  - intros tree Htree. rewrite Htree in Hshape. destruct Hshape as [Hentries _].
    split; [done|]. split.
    + rewrite leaves_leaf_entries, Hentries. apply NoDup_fst_map_to_list.
    + intros c f. rewrite Hentries. apply elem_of_map_to_list.
Qed.

Lemma buildHuffmanTree_leaves_are_entries_witness :
  let freqTable := buildFrequencyTable [66; 65; 66] in
  let tree := Node None 3 (Some (Node (Some 65) 1 None None))
                (Some (Node (Some 66) 2 None None)) in
  leaf_entries tree ≡ₚ map_to_list freqTable /\
  NoDup (leaves tree) /\
  (forall c f, (c, f) ∈ leaf_entries tree <-> freqTable !! c = Some f).
Proof.
  apply (proj2 (buildHuffmanTree_leaves_are_entries (buildFrequencyTable [66; 65; 66]))).
  vm_compute. reflexivity.
Defined.

(** X5. The weight of the root of the tree that [buildHuffmanTree] returns
    is the sum of all counts of the table. For a table with one entry the
    tree is a root without byte value whose only child, on the left, is the
    leaf; for a table with two or more entries it is a strict binary tree:
    every node is a leaf with a byte value and no child, or an internal node
    without byte value, with two children, weighing their sum. *)
Theorem buildHuffmanTree_full_tree (freqTable : gmap Z Z) (tree : HuffmanNode) :
  buildHuffmanTree freqTable = Some tree ->
  freq tree = Zsum (map_to_list freqTable).*2 /\
  (forall c f, freqTable = {[ c := f ]} ->
               tree = Node None f (Some (Node (Some c) f None None)) None) /\
  ((2 <= length (map_to_list freqTable))%nat ->
   full_tree tree /\ char tree = None).
Proof.
  intros Htree. pose proof (buildHuffmanTree_shape freqTable) as Hshape.
  rewrite Htree in Hshape. destruct Hshape as [Hentries Hshape].
  split; [|split].
  - destruct Hshape as [(e & He & ->)|[_ Hfull]].
    + rewrite He. unfold Zsum. simpl. lia.
    + rewrite (full_tree_weight tree Hfull). apply Zsum_perm. by rewrite Hentries.
  - intros c f ->. rewrite map_to_list_singleton in Hshape.
    destruct Hshape as [(e & [= <-] & ->)|[Hlen _]]; [done|simpl in Hlen; lia].
  - intros Hlen. destruct Hshape as [(e & He & _)|[_ Hfull]].
    + rewrite He in Hlen. simpl in Hlen. lia.
    + split; [done|]. apply full_tree_root; [done|]. by rewrite Hentries.
Qed.

Lemma buildHuffmanTree_full_tree_witness :
  let freqTable := buildFrequencyTable [66; 65; 66] in
  let tree := Node None 3 (Some (Node (Some 65) 1 None None))
                (Some (Node (Some 66) 2 None None)) in
  freq tree = Zsum (map_to_list freqTable).*2 /\
  (forall c f, freqTable = {[ c := f ]} ->
               tree = Node None f (Some (Node (Some c) f None None)) None) /\
  ((2 <= length (map_to_list freqTable))%nat ->
   full_tree tree /\ char tree = None).
Proof.
  apply (buildHuffmanTree_full_tree (buildFrequencyTable [66; 65; 66])).
  vm_compute. reflexivity.
Defined.


(** ** Serialization *)

Lemma TreeData_induction (Q : TreeData -> Prop) :
  (forall c f l r,
      (forall l', l = Some l' -> Q l') ->
      (forall r', r = Some r' -> Q r') ->
      Q (TreeObj c f l r)) ->
  forall data, Q data.
Proof.
  intros Hstep. fix IH 1. intros [c f l r]. apply Hstep.
  - destruct l as [l'|]; intros ? [= <-]. apply IH.
  - destruct r as [r'|]; intros ? [= <-]. apply IH.
Qed.

Lemma serialize_deserialize_node (data : TreeData) :
  serializeNode (deserializeNode data) = data.
Proof.
  induction data as [c f l r IHl IHr] using TreeData_induction. simpl.
  f_equal.
  - destruct l as [l'|]; [|done]. by rewrite (IHl l').
  - destruct r as [r'|]; [|done]. by rewrite (IHr r').
Qed.

(** X6. [deserializeTree] and [serializeTree] are inverse to each other:
    a tree comes back from its serialized form with the same shape, byte
    values and weights, [null] comes back as [null], and serializing a
    deserialized object gives the object back. *)
Theorem serializeTree_deserializeTree_inverse :
  (forall tree : option HuffmanNode, deserializeTree (serializeTree tree) = tree) /\
  (forall data : option TreeData, serializeTree (deserializeTree data) = data) /\
  (forall tree : option HuffmanNode, serializeTree tree = None <-> tree = None).
Proof.
  split; [|split].
  - intros [tree|]; [|done]. simpl. by rewrite deserialize_serialize_node.
  - intros [data|]; [|done]. simpl. by rewrite serialize_deserialize_node.
  - intros [tree|]; by split.
Qed.

(** X7. The header fields: [setUint32(n, true)] writes four bytes, each
    between 0 and 255, and [getUint32(true)] reads them back as n modulo
    2^32; a length below 2^32 is read back unchanged, least significant
    byte first. *)
Theorem header_field_roundtrip (n : Z) (rest : list Z) :
  length (setUint32_le n) = 4%nat /\
  Forall byte_ok (setUint32_le n) /\
  getUint32_le (setUint32_le n ++ rest) 0 = n mod 2 ^ 32 /\
  nth 0 (setUint32_le n) 0 = n mod 256.
Proof.
  split; [done|]. split; [|split].
  - unfold setUint32_le, byte_ok. cbv zeta.
    repeat (apply Forall_cons; split; [apply Z.mod_pos_bound; lia|]). constructor.
  - unfold getUint32_le, setUint32_le. cbv zeta. simpl nth.
    pose proof (Z.mod_pos_bound n (2 ^ 32)) as Hb.
    change (2 ^ 32) with 4294967296 in *.
    set (m := n mod 4294967296) in *. clearbody m.
    Z.div_mod_to_equations. lia.
  - unfold setUint32_le. cbv zeta. simpl nth.
    change (2 ^ 32) with 4294967296.
    Z.div_mod_to_equations. lia.
Qed.

(** ** Bit packing, the other way round *)

Lemma byte_bits_spec (b : Z) :
  byte_ok b ->
  parseInt2 (byte_bits b) 0 = b /\ length (byte_bits b) = 8%nat /\
  Forall is_bit (byte_bits b).
Proof.
  intros Hb.
  assert (Hall : forallb byte_check (seqZ 0 256) = true) by (vm_compute; reflexivity).
  rewrite forallb_forall in Hall.
  assert (Hin : In b (seqZ 0 256)).
  { apply list_elem_of_In, elem_of_seqZ. unfold byte_ok in Hb. lia. }
  specialize (Hall b Hin). unfold byte_check in Hall.
  apply andb_prop in Hall as [Hall Hbits]. apply andb_prop in Hall as [Hparse Hlen].
  split; [by apply Z.eqb_eq|]. split; [by apply Nat.eqb_eq|].
  rewrite forallb_forall in Hbits. apply Forall_forall. intros c Hc.
  apply list_elem_of_In, Hbits in Hc. apply orb_prop in Hc as [Hc|Hc].
  - left. by apply Ascii.eqb_eq.
  - right. by apply Ascii.eqb_eq.
Qed.

Lemma pack_loop_step (fuel : nat) (s : list ascii) :
  s <> [] ->
  pack_loop (S fuel) s = to_uint8 (parseInt2 (take 8 s) 0) :: pack_loop fuel (drop 8 s).
Proof. by destruct s. Qed.

Lemma pack_loop_bytes (l : list Z) : forall fuel,
  Forall byte_ok l -> (8 * length l <= fuel)%nat ->
  pack_loop fuel (concat (map byte_bits l)) = l.
Proof.
  induction l as [|b l IH]; intros fuel Hl Hfuel.
  - by destruct fuel.
  - apply Forall_cons in Hl as [Hb Hl].
    destruct (byte_bits_spec b Hb) as (Hparse & Hlen & _).
    destruct fuel as [|fuel]; [simpl in Hfuel; lia|].
    cbn [map concat]. rewrite pack_loop_step.
    2:{ intros Hnil. apply (f_equal length) in Hnil.
        rewrite length_app, Hlen in Hnil. simpl in Hnil. lia. }
    rewrite take_app_length' by done. rewrite drop_app_length' by done.
    rewrite Hparse, (to_uint8_id b Hb). f_equal.
    apply IH; [done|]. simpl in Hfuel. lia.
Qed.

Lemma concat_byte_bits_length (l : list Z) :
  Forall byte_ok l -> length (concat (map byte_bits l)) = (8 * length l)%nat.
Proof.
  induction 1 as [|b l Hb _ IH]; [done|].
  cbn [map concat]. rewrite length_app, IH.
  destruct (byte_bits_spec b Hb) as (_ & -> & _). simpl. lia.
Qed.

(** X8. Packing what was unpacked gives the bytes back: for every byte
    array, [unpackBits] with padding 0 yields eight binary digits per byte,
    and [packBits] of that bit string is the array again, with padding 0. *)
Theorem unpackBits_packBits_bytes (l : list Z) :
  Forall byte_ok l ->
  length (unpackBits l 0) = (8 * length l)%nat /\
  Forall is_bit (unpackBits l 0) /\
  packBits (unpackBits l 0) = Packed.mk l 0.
Proof.
  intros Hl.
  assert (Hunpack : unpackBits l 0 = concat (map byte_bits l)).
  { unfold unpackBits. cbv zeta. by rewrite unpack_foldl. }
  pose proof (concat_byte_bits_length l Hl) as Hlen.
  rewrite Hunpack. split; [done|]. split.
  - clear Hlen Hunpack. induction Hl as [|b l Hb _ IH]; [constructor|].
    cbn [map concat]. apply Forall_app. split; [|done].
    by destruct (byte_bits_spec b Hb) as (_ & _ & ?).
  - unfold packBits. cbv zeta. rewrite Hlen.
    replace ((8 - Z.of_nat (8 * length l) mod 8) mod 8) with 0.
    2:{ rewrite Nat2Z.inj_mul, Z.mul_comm, Z_mod_mult. done. }
    cbn [Z.ltb Z.compare]. f_equal. apply pack_loop_bytes; [done|lia].
Qed.

Lemma unpackBits_packBits_bytes_witness :
  length (unpackBits [198; 0; 255] 0) = (8 * length [198; 0; 255])%nat /\
  Forall is_bit (unpackBits [198; 0; 255] 0) /\
  packBits (unpackBits [198; 0; 255] 0) = Packed.mk [198; 0; 255] 0.
Proof. apply unpackBits_packBits_bytes. literal_bytes. Defined.

(** ** RLE: short buffers, escape triplets, data without sentinel *)

Lemma rle_loop_short fuel : forall data,
  (length data < 4)%nat -> (length data <= fuel)%nat -> rle_loop fuel data = data.
Proof.
  induction fuel as [|fuel IH]; intros data Hshort Hfuel.
  - destruct data; simpl in *; [done|lia].
  - destruct data as [|c rest]; [done|].
    cbn [rle_loop]. cbv zeta.
    pose proof (run_count_bounds c rest 1) as Hb.
    pose proof (run_count_data c rest) as Hdata. cbv zeta in Hdata.
    set (count := run_count c rest 1) in *. simpl in Hshort, Hfuel.
    destruct (Nat.leb_spec 4 count) as [?|_]; [lia|].
    rewrite IH; [by rewrite <- Hdata| |]; rewrite length_drop; simpl; lia.
Qed.

Lemma run_count_replicate c m : forall k,
  (k + m <= 255)%nat -> run_count c (replicate m c) k = (k + m)%nat.
Proof.
  induction m as [|m IH]; intros k Hk; simpl; [lia|].
  rewrite Z.eqb_refl. destruct (Nat.ltb_spec k 255) as [_|?]; [|lia].
  simpl. rewrite IH; lia.
Qed.

(** X9. A buffer of fewer than four bytes is left as it is by the forward
    transform; in particular the three bytes [255, n, c] are, and the
    inverse transform turns them into n copies of c. A run of n copies of c,
    for n from 4 to 255, is transformed into those same three bytes: the
    two different buffers have one transformed form. *)
Theorem rle_escape_triplet (n c : Z) :
  byte_ok n -> byte_ok c ->
  (forall B, Forall byte_ok B -> (length B < 4)%nat -> preprocessData B = B) /\
  preprocessData [255; n; c] = [255; n; c] /\
  reverseRLE (preprocessData [255; n; c]) = replicate (Z.to_nat n) c /\
  (4 <= n -> preprocessData (replicate (Z.to_nat n) c) = [255; n; c]).
Proof.
  intros Hn Hc.
  assert (Hshort : forall B, Forall byte_ok B -> (length B < 4)%nat ->
                             preprocessData B = B).
  { intros B HB Hlen. rewrite preprocessData_rle_loop by done.
    by apply rle_loop_short. }
  assert (Htriplet : preprocessData [255; n; c] = [255; n; c]).
  { apply Hshort; [|simpl; lia].
    repeat (apply Forall_cons; split; [done || (unfold byte_ok; lia)|]). constructor. }
  split; [done|]. split; [done|]. split.
  - rewrite Htriplet. unfold reverseRLE. cbn [reverseRLE_loop].
    rewrite Z.eqb_refl, app_nil_r.
    apply Uint8Array_from_id. by apply Forall_replicate.
  - intros Hn4. unfold byte_ok in Hn.
    rewrite preprocessData_rle_loop by by apply Forall_replicate.
    rewrite length_replicate.
    destruct (Z.to_nat n) as [|m] eqn:Em; [lia|].
    cbn [replicate rle_loop]. cbv zeta.
    rewrite (run_count_replicate c m 1) by lia.
    destruct (Nat.leb_spec 4 (1 + m)) as [_|?]; [|lia].
    replace (Z.of_nat (1 + m)) with n by lia.
    change (1 + m)%nat with (S m). cbn [drop].
    rewrite drop_ge by (rewrite length_replicate; lia).
    by destruct m.
Qed.

Lemma rle_escape_triplet_witness :
  (forall B, Forall byte_ok B -> (length B < 4)%nat -> preprocessData B = B) /\
  preprocessData [255; 5; 7] = [255; 5; 7] /\
  reverseRLE (preprocessData [255; 5; 7]) = replicate (Z.to_nat 5) 7 /\
  (4 <= 5 -> preprocessData (replicate (Z.to_nat 5) 7) = [255; 5; 7]).
Proof. apply rle_escape_triplet; unfold byte_ok; lia. Defined.

Lemma reverseRLE_loop_no_sentinel (d : list Z) : 255 ∉ d -> reverseRLE_loop d = d.
Proof.
  induction d as [|b d IH]; intros Hd; [done|].
  rewrite reverseRLE_loop_literal.
  - rewrite IH; [done|]. intros Hin. apply Hd. by right.
  - intros ->. apply Hd. by left.
Qed.

(** X10. The inverse RLE transform leaves a byte array without the byte
    255 exactly as it is. *)
Theorem reverseRLE_without_sentinel (d : list Z) :
  Forall byte_ok d -> 255 ∉ d -> reverseRLE d = d.
Proof.
  intros Hd Hno. unfold reverseRLE.
  rewrite reverseRLE_loop_no_sentinel by done. by apply Uint8Array_from_id.
Qed.

Lemma reverseRLE_without_sentinel_witness :
  reverseRLE [3; 3; 3; 3; 3; 0; 254] = [3; 3; 3; 3; 3; 0; 254].
Proof.
  apply reverseRLE_without_sentinel; [literal_bytes|].
  apply (bool_decide_unpack (255 ∉ [3; 3; 3; 3; 3; 0; 254])). vm_compute. exact I.
Defined.

(** X20. The inverse RLE transform undoes the forward transform on every
    byte buffer in which the forward transform emits a byte 255 literally
    only where fewer than two transformed bytes follow it; in particular on
    every buffer without the byte 255, and on every buffer in which each 255
    falls in a run that is collapsed into a triplet or at the end of the
    transformed buffer, whatever the lengths of its runs. *)
Theorem rle_roundtrip (B : list Z) :
  Forall byte_ok B ->
  255 ∉ B \/ literal_sentinel_at_end (length B) B = true ->
  reverseRLE (preprocessData B) = B.
Proof.
  intros Hbytes [H|H]; apply reverseRLE_preprocessData_at_end; try done.
  by apply no_literal_sentinel_at_end, no_sentinel_no_literal.
Qed.

Lemma rle_roundtrip_witness :
  reverseRLE (preprocessData [1; 1; 1; 2; 2; 2; 2; 255; 255; 255; 255; 255; 3; 255; 9])
  = [1; 1; 1; 2; 2; 2; 2; 255; 255; 255; 255; 255; 3; 255; 9].
Proof.
  apply rle_roundtrip.
  - literal_bytes.
  - right. reflexivity.
Defined.

(** ** The decoder *)

Lemma decode_loop_step tree bit rest current result :
  decode_loop tree (bit :: rest) current result
  = let next := default current (child_for bit current) in
    match char next with
    | Some c => decode_loop tree rest tree (result ++ [c])
    | None => decode_loop tree rest next result
    end.
Proof.
  cbn [decode_loop]. unfold child_for. cbv zeta.
  destruct (Ascii.eqb_spec bit "0") as [->|_].
  - change (Ascii.eqb "0" "1") with false. cbv iota.
    by destruct (left current).
  - destruct (Ascii.eqb bit "1"); [|done]. by destruct (right current).
Qed.

Lemma child_for_leaves bit current next c :
  char current = None -> child_for bit current = Some next ->
  c ∈ leaves next -> c ∈ leaves current.
Proof.
  destruct current as [ch f l r]. simpl. intros -> Hchild Hc.
  unfold child_for in Hchild. simpl in Hchild. cbn [leaves].
  apply elem_of_app.
  destruct (Ascii.eqb bit "0"); [left; by subst|].
  destruct (Ascii.eqb bit "1"); [right; by subst|done].
Qed.

Lemma decode_loop_emits tree bits : forall current result,
  char tree = None -> char current = None ->
  (forall c, c ∈ leaves current -> c ∈ leaves tree) ->
  Forall (fun c => c ∈ leaves tree) result ->
  Forall (fun c => c ∈ leaves tree) (decode_loop tree bits current result) /\
  (length (decode_loop tree bits current result) <= length result + length bits)%nat.
Proof.
  induction bits as [|bit bits IH]; intros current result Hroot Hcur Hsub Hres.
  - simpl. split; [done|lia].
  - rewrite decode_loop_step. cbv zeta.
    destruct (child_for bit current) as [next|] eqn:Hchild;
      cbn [default from_option id].
    + destruct (char next) as [c|] eqn:Hnext.
      * assert (Hres' : Forall (fun c => c ∈ leaves tree) (result ++ [c])).
        { apply Forall_app. split; [done|]. constructor; [|constructor].
          apply Hsub. eapply child_for_leaves; [done..|].
          destruct next as [ch ? ? ?]. simpl in Hnext. subst ch. by left. }
        destruct (IH tree (result ++ [c]) Hroot Hroot (fun c H => H) Hres') as [H1 H2].
        split; [done|]. rewrite length_app in H2. simpl in *. lia.
      * assert (Hsub' : forall c, c ∈ leaves next -> c ∈ leaves tree).
        { intros c Hc. apply Hsub. by eapply child_for_leaves. }
        destruct (IH next result Hroot Hnext Hsub' Hres) as [H1 H2].
        split; [done|]. simpl. lia.
    + rewrite Hcur. destruct (IH current result Hroot Hcur Hsub Hres) as [H1 H2].
      split; [done|]. simpl. lia.
Qed.

(** X11. Decoding against a tree whose root holds no byte value emits only
    byte values of leaves of the tree, and at most one byte per bit of the
    bit string, whatever the bits are. *)
Theorem decoder_emits_leaves (tree : HuffmanNode) (bitString : list ascii) :
  char tree = None ->
  Forall (fun c => c ∈ leaves tree) (decode_loop tree bitString tree []) /\
  (length (decode_loop tree bitString tree []) <= length bitString)%nat.
Proof.
  intros Hroot.
  destruct (decode_loop_emits tree bitString tree [] Hroot Hroot) as [H1 H2];
    [done|constructor|].
  split; [done|]. simpl in H2. lia.
Qed.

Lemma decoder_emits_leaves_witness :
  let tree := Node None 3 (Some (Node (Some 65) 1 None None))
                (Some (Node (Some 66) 2 None None)) in
  Forall (fun c => c ∈ leaves tree)
    (decode_loop tree ["1"; "0"; "x"; "1"]%char tree []) /\
  (length (decode_loop tree ["1"; "0"; "x"; "1"]%char tree [])
   <= length ["1"; "0"; "x"; "1"]%char)%nat.
Proof.
  apply (decoder_emits_leaves
           (Node None 3 (Some (Node (Some 65) 1 None None))
              (Some (Node (Some 66) 2 None None)))).
  reflexivity.
Defined.


(** ** Containers that are not artifacts of the compressor *)

(** X12. A well-formed container whose tree block is the text of [null] is
    rejected: [processFile] ends in the error state, with the message that
    the Huffman tree could not be rebuilt, and produces no file. *)
Theorem container_without_tree_rejected
    (P : Platform) (metadata : Meta.t) (compressed : list Z) (name : string) (random : Q) :
  codec_faithful P metadata None ->
  processFile P decompress
    (File.mk name (assembleContainer P metadata None compressed)) random
  = {| result := Some (Failed "Invalid .huf file format: Failed to rebuild Huffman tree");
       decompressedFile := None |}.
Proof.
  intros Hcodec. unfold processFile. cbn [File.arrayBuffer].
  by rewrite readContainer_assemble.
Qed.

Lemma container_without_tree_rejected_witness :
  processFile Reference.platform decompress
    (File.mk "a.huf"
       (assembleContainer Reference.platform
          (Meta.mk 3 0 1 0 0 "a.pdf" 1000 "1.1") None [7])) 0%Q
  = {| result := Some (Failed "Invalid .huf file format: Failed to rebuild Huffman tree");
       decompressedFile := None |}.
Proof.
  apply container_without_tree_rejected.
  repeat split; vm_compute; reflexivity.
Defined.

(** X13. A well-formed container whose tree is a single leaf is rejected,
    and no file is produced, when the metadata give an original size that is
    negative or above 2^53 - 1; and whenever such a container decompresses,
    the file is as many copies of the leaf's byte value (modulo 256) as the
    metadata give as the original size, whatever the payload and the padding
    count are. *)
Theorem single_leaf_container
    (P : Platform) (metadata : Meta.t) (c f : Z) (compressed : list Z) (name : string) :
  codec_faithful P metadata (Some (TreeObj (Some c) f None None)) ->
  let container :=
    assembleContainer P metadata (Some (TreeObj (Some c) f None None)) compressed in
  let originalSize := Meta.originalSize metadata in
  (originalSize < 0 \/ MAX_SAFE_INTEGER < originalSize ->
   decompressContainer P name container = None) /\
  (forall decompressed,
      decompressContainer P name container = Some decompressed ->
      0 <= originalSize <= MAX_SAFE_INTEGER /\
      decompressed = replicate (Z.to_nat originalSize) (c mod 256)).
Proof.
  intros Hcodec container originalSize. subst container.
  unfold decompressContainer, processFile. cbn [File.arrayBuffer].
  rewrite readContainer_assemble by done.
  cbn [deserializeTree deserializeNode huffmanDecompress]. fold originalSize.
  destruct (Z.ltb_spec originalSize 0) as [Hneg|Hneg];
    destruct (Z.ltb_spec MAX_SAFE_INTEGER originalSize) as [Hmax|Hmax];
    cbn [orb mbind completion_bind result decompressedFile fst snd];
    (split; [intros [?|?]; first [done|lia]|]).
  1-3: by intros decompressed [=].
  intros decompressed [= <-]. split; [lia|done].
Qed.

Lemma single_leaf_container_witness :
  let container :=
    assembleContainer Reference.platform (Meta.mk 3 0 1 0 0 "a.pdf" 1000 "1.1")
      (Some (TreeObj (Some 7) 3 None None)) [1; 2] in
  decompressContainer Reference.platform "a.huf" container = Some [7; 7; 7] /\
  (forall decompressed,
      decompressContainer Reference.platform "a.huf" container = Some decompressed ->
      decompressed = [7; 7; 7]).
Proof.
  cbv zeta. split; [vm_compute; reflexivity|].
  intros decompressed H.
  apply (single_leaf_container Reference.platform
           (Meta.mk 3 0 1 0 0 "a.pdf" 1000 "1.1") 7 3 [1; 2] "a.huf") in H.
  - destruct H as [_ ->]. reflexivity.
  - repeat split; vm_compute; reflexivity.
Defined.

(** X14. When the header of a container is in range and the text of the
    metadata block, or after it the text of the tree block, does not parse,
    [processFile] ends in the error state with the parser's message after
    "Invalid .huf file format: ", and produces no file. *)
Theorem text_parse_failure_reported
    (P : Platform) (file : File.t) (random : Q) (e : exn) :
  let data := File.arrayBuffer file in
  let M := getUint32_le data 0 in
  let T := getUint32_le data 4 in
  (8 <= length data)%nat ->
  8 + M + T <= Z.of_nat (length data) ->
  decode_metadata P (slice data 8 (8 + M)) = Throw e \/
  (exists metadata,
      decode_metadata P (slice data 8 (8 + M)) = Normal metadata /\
      decode_tree P (slice data (8 + M) (8 + M + T)) = Throw e) ->
  processFile P decompress file random
  = {| result := Some (Failed ("Invalid .huf file format: " ++ exn_message e));
       decompressedFile := None |}.
Proof.
  intros data M T Hlen Hrange Hfail.
  unfold processFile, readContainer. fold data. fold M. fold T.
  destruct (Nat.ltb_spec (length data) 8) as [?|_]; [lia|].
  destruct (Z.ltb_spec (Z.of_nat (length data)) (8 + M + T)) as [?|_]; [lia|].
  destruct Hfail as [Hm|(metadata & Hm & Ht)]; rewrite Hm; cbn [mbind completion_bind].
  - done.
  - rewrite Ht. done.
Qed.

Lemma text_parse_failure_reported_witness :
  processFile Reference.platform decompress
    (File.mk "a.huf" [0; 0; 0; 0; 0; 0; 0; 0; 9]) 0%Q
  = {| result := Some (Failed ("Invalid .huf file format: "
                               ++ exn_message (SyntaxError "Unexpected token")));
       decompressedFile := None |}.
Proof.
  apply (text_parse_failure_reported Reference.platform
           (File.mk "a.huf" [0; 0; 0; 0; 0; 0; 0; 0; 9]) 0%Q).
  - simpl. lia.
  - vm_compute. discriminate.
  - left. vm_compute. reflexivity.
Defined.

(** ** The displayed statistics *)

(** X15. Whatever [Math.random()] returns in [0, 1), the compression ratio
    that [processFile] leaves in the result is at most "20.00"; when the
    computed ratio exceeded 20 it is replaced by a value from "15.00" to
    "20.00". The payload, the tree and the padding are not touched. *)
Theorem displayed_ratio_at_most_20 (r : Result.t) (random : Q) :
  (0 <= random)%Q -> (random < 1)%Q ->
  Result.compressionRatio (adjustResult r random) <= 2000 /\
  (2000 < Result.compressionRatio r ->
   1500 <= Result.compressionRatio (adjustResult r random)) /\
  Result.compressed (adjustResult r random) = Result.compressed r /\
  Result.tree (adjustResult r random) = Result.tree r /\
  Result.padding (adjustResult r random) = Result.padding r.
Proof.
  intros H0 H1.
  destruct (adjustResult_payload r random) as (Hc & Ht & Hp & _).
  split; [|split; [|done]].
  - unfold adjustResult.
    destruct (Qle_bool (parseFloat 2 (Result.compressionRatio r)) 20%Q) eqn:Hgate.
    + apply Qle_bool_iff in Hgate. unfold parseFloat, Qle in Hgate.
      simpl in Hgate. lia.
    + cbn [Result.compressionRatio]. unfold toFixed. cbv zeta.
      change (inject_Z (10 ^ 2)) with 100%Q.
      assert (Hpos : Qle_bool 0 (15 + random * 5) = true) by (apply Qle_bool_iff; lra).
      rewrite Hpos.
      set (y := ((15 + random * 5) * 100 + (1 # 2))%Q).
      pose proof (Qfloor_le y) as Hfl.
      assert (Hy : (y < inject_Z 2001)%Q) by (subst y; unfold inject_Z; lra).
      pose proof (Qle_lt_trans _ _ _ Hfl Hy) as Hlt.
      rewrite <- Zlt_Qlt in Hlt. lia.
  - intros Hbig. unfold adjustResult.
    destruct (Qle_bool (parseFloat 2 (Result.compressionRatio r)) 20%Q) eqn:Hgate.
    + apply Qle_bool_iff in Hgate. unfold parseFloat, Qle in Hgate.
      simpl in Hgate. lia.
    + cbn [Result.compressionRatio]. unfold toFixed. cbv zeta.
      change (inject_Z (10 ^ 2)) with 100%Q.
      assert (Hpos : Qle_bool 0 (15 + random * 5) = true) by (apply Qle_bool_iff; lra).
      rewrite Hpos.
      set (y := ((15 + random * 5) * 100 + (1 # 2))%Q).
      pose proof (Qlt_floor y) as Hfl.
      assert (Hy : (inject_Z 1500 < y)%Q) by (subst y; unfold inject_Z; lra).
      pose proof (Qlt_trans _ _ _ Hy Hfl) as Hlt.
      rewrite <- Zlt_Qlt in Hlt. lia.
Qed.

Lemma displayed_ratio_at_most_20_witness :
  let r := Result.mk [227; 144] [] None ∅ 8 2 7500 [] [] 6 4 4 133 1000 false 0 in
  Result.compressionRatio (adjustResult r (1 # 2)%Q) <= 2000 /\
  (2000 < Result.compressionRatio r ->
   1500 <= Result.compressionRatio (adjustResult r (1 # 2)%Q)) /\
  Result.compressed (adjustResult r (1 # 2)%Q) = Result.compressed r /\
  Result.tree (adjustResult r (1 # 2)%Q) = Result.tree r /\
  Result.padding (adjustResult r (1 # 2)%Q) = Result.padding r.
Proof.
  apply (displayed_ratio_at_most_20
           (Result.mk [227; 144] [] None ∅ 8 2 7500 [] [] 6 4 4 133 1000 false 0)).
  - vm_compute. discriminate.
  - reflexivity.
Defined.

(** ** The fields of a compression result *)

Lemma Object_keys_NoDup o : NoDup (Object_keys o).
Proof. rewrite Object_keys_perm. apply NoDup_fst_map_to_list. Qed.

Lemma Object_keys_distinct (data : list Z) :
  length (Object_keys (buildFrequencyTable data)) = length (remove_dups data).
Proof.
  apply Permutation_length, NoDup_Permutation.
  - apply Object_keys_NoDup.
  - apply NoDup_remove_dups.
  - intros c. by rewrite Object_keys_buildFrequencyTable, elem_of_remove_dups.
Qed.

Lemma pack_loop_length k : forall fuel s,
  length s = (8 * k)%nat -> (length s <= fuel)%nat -> length (pack_loop fuel s) = k.
Proof.
  induction k as [|k IH]; intros fuel s Hlen Hfuel.
  - destruct s; [|done]. by destruct fuel.
  - destruct s as [|c s]; [done|]. destruct fuel as [|fuel]; [simpl in *; lia|].
    cbn [pack_loop length]. f_equal. apply IH; rewrite length_drop; simpl in *; lia.
Qed.

Lemma packBits_length (bits : list ascii) :
  8 * Z.of_nat (length (Packed.bytes (packBits bits)))
  = Z.of_nat (length bits) + Packed.padding (packBits bits).
Proof.
  pose proof (packBits_padding_bound bits) as Hpad. revert Hpad.
  unfold packBits. cbv zeta. cbn [Packed.bytes Packed.padding].
  set (n := Z.of_nat (length bits)).
  set (pad := (8 - n mod 8) mod 8). intros Hpad.
  set (padded := if 0 <? pad then bits ++ replicate (Z.to_nat pad) "0"%char else bits).
  assert (Hpadded : Z.of_nat (length padded) = n + pad).
  { subst padded. destruct (Z.ltb_spec 0 pad).
    - rewrite length_app, length_replicate. lia.
    - lia. }
  assert (Hmod : (n + pad) mod 8 = 0).
  { subst pad. rewrite Zplus_mod_idemp_r.
    replace (n + (8 - n mod 8)) with (n - n mod 8 + 1 * 8) by lia.
    rewrite Z_mod_plus_full, Zminus_mod_idemp_r, Z.sub_diag. done. }
  assert (Hdiv : n + pad = 8 * ((n + pad) / 8)) by (apply Z_div_exact_full_2; lia).
  rewrite (pack_loop_length (Z.to_nat ((n + pad) / 8))); lia.
Qed.

(** X16. When [huffmanCompress] returns a result for a file, the file is not
    empty and the numbers of the result describe the data: the original size
    is the length of the file, the compressed size is the length of the
    payload, the padding count is between 0 and 7, the number of unique
    bytes is the number of distinct byte values of the RLE-transformed
    buffer, and outside the single-value path eight times the payload
    length is the number of code bits plus the padding. *)
Theorem huffmanCompress_result_fields (P : Platform) (file : File.t) (r : Result.t) :
  huffmanCompress P (Some file) = Normal r ->
  let B := File.arrayBuffer file in
  B <> [] /\
  Result.originalSize r = Z.of_nat (length B) /\
  Result.originalData r = B /\
  Result.compressedSize r = Z.of_nat (length (Result.compressed r)) /\
  0 <= Result.padding r <= 7 /\
  Result.uniqueBytes r = Z.of_nat (length (remove_dups (preprocessData B))) /\
  Result.preprocessedSize r = Z.of_nat (length (preprocessData B)) /\
  (Result.singleChar r = false ->
   8 * Result.compressedSize r
   = Z.of_nat (length (Result.compressedBits r)) + Result.padding r).
Proof.
  intros Hr B.
  assert (HB : B <> []).
  { intros HB. unfold huffmanCompress in Hr. fold B in Hr. rewrite HB in Hr.
    vm_compute in Hr. discriminate. }
  split; [done|]. revert Hr. unfold huffmanCompress. fold B. cbv zeta.
  pose proof (Object_keys_distinct (preprocessData B)) as Hdistinct.
  destruct (Object_keys (buildFrequencyTable (preprocessData B)))
    as [|k1 [|k2 ks]] eqn:Hkeys.
  - destruct (buildHuffmanTree _) as [tree|]; [|done].
    exfalso. apply (preprocessData_nonempty B HB).
    destruct (preprocessData B) as [|b pre]; [done|].
    assert (Hb : b ∈ Object_keys (buildFrequencyTable (b :: pre))).
    { apply Object_keys_buildFrequencyTable. by left. }
    rewrite Hkeys in Hb. by apply elem_of_nil in Hb.
  - intros [= <-].
    cbn [Result.originalSize Result.originalData Result.compressedSize Result.compressed
         Result.padding Result.uniqueBytes Result.preprocessedSize Result.singleChar
         Result.compressedBits].
    rewrite <- Hdistinct. repeat split; try done; simpl; lia.
  - destruct (buildHuffmanTree _) as [tree|]; [|done].
    cbn [buildCodes mbind completion_bind]. intros [= <-].
    cbn [Result.originalSize Result.originalData Result.compressedSize Result.compressed
         Result.padding Result.uniqueBytes Result.preprocessedSize Result.singleChar
         Result.compressedBits].
    rewrite <- Hdistinct.
    set (bits := foldl _ [] (preprocessData B)).
    pose proof (packBits_padding_bound bits) as Hpad.
    pose proof (packBits_length bits) as Hlen.
    split; [done|]. split; [done|]. split; [done|]. split; [exact Hpad|].
    split; [done|]. split; [done|]. intros _. exact Hlen.
Qed.

Lemma huffmanCompress_result_fields_witness :
  let B := [7; 7; 7] in
  let r := Result.mk [7] [] (Some (Node (Some 7) 3 None None)) {[ 7 := ["0"%char] ]}
             3 1 6667 B [] 3 0 1 0 1000 true 3 in
  B <> [] /\
  Result.originalSize r = Z.of_nat (length B) /\
  Result.originalData r = B /\
  Result.compressedSize r = Z.of_nat (length (Result.compressed r)) /\
  0 <= Result.padding r <= 7 /\
  Result.uniqueBytes r = Z.of_nat (length (remove_dups (preprocessData B))) /\
  Result.preprocessedSize r = Z.of_nat (length (preprocessData B)) /\
  (Result.singleChar r = false ->
   8 * Result.compressedSize r
   = Z.of_nat (length (Result.compressedBits r)) + Result.padding r).
Proof.
  apply (huffmanCompress_result_fields Reference.platform (File.mk "a.pdf" [7; 7; 7])).
  vm_compute. reflexivity.
Defined.

(** ** The interface *)

Lemma handleFileProcessing_fits (st : Ui.t) (selectedFile : Upload.t) :
  file_fits_mode st -> file_fits_mode (handleFileProcessing st selectedFile).
Proof.
  intros Hst. unfold handleFileProcessing.
  destruct (String.eqb_spec (Upload.type selectedFile) "application/pdf") as [Hpdf|Hpdf].
  - by destruct (Ui.mode st).
  - destruct (endsWith _ ".huf") eqn:Hhuf.
    + by destruct (Ui.mode st).
    + exact Hst.
Qed.

(** X17. In every state the interface can reach (files chosen or dropped,
    the mode buttons, reset, the process button, and results of earlier
    runs arriving), the selected file fits the mode: in compress mode it has
    the type application/pdf, in decompress mode it is not of that type and
    its name ends in ".huf". So [processFile] compresses only PDF files and
    decompresses only [.huf] files. *)
Theorem selected_file_fits_mode (P : Platform) (st : Ui.t) :
  ui_reachable P st -> file_fits_mode st.
Proof.
  induction 1 as [|st st' _ IH Hstep]; [done|].
  destruct Hstep as [st selectedFile|st m|st|st random|st outcome].
  - by apply handleFileProcessing_fits.
  - done.
  - done.
  - destruct st as [m [selected|] ? ? ? ?]; exact IH.
  - exact IH.
Qed.

Lemma selected_file_fits_mode_witness :
  file_fits_mode
    (clickProcess Reference.platform 0%Q
       (handleFileProcessing (selectMode decompress initialUi)
          (Upload.mk "application/pdf" (File.mk "a.pdf" [7; 7; 7])))).
Proof.
  apply (selected_file_fits_mode Reference.platform).
  eapply reach_step; [|apply step_process].
  eapply reach_step; [|apply step_file].
  eapply reach_step; [|apply step_mode].
  apply reach_initial.
Defined.

(** ** The efficiency statistic *)

Lemma calculateEfficiency_le_100 (originalSize compressedSize entropy : Q) :
  (calculateEfficiency originalSize compressedSize entropy <= 100)%Q.
Proof.
  unfold calculateEfficiency, Math_min. cbv zeta.
  destruct (Qle_bool _ 100) eqn:Hle; [by apply Qle_bool_iff|]. apply Qle_refl.
Qed.

Lemma toFixed_1_le_1000 (x : Q) : (x <= 100)%Q -> toFixed 1 x <= 1000.
Proof.
  intros Hx. unfold toFixed. cbv zeta. change (inject_Z (10 ^ 1)) with 10%Q.
  destruct (Qle_bool 0 x) eqn:Hsign.
  - set (y := (x * 10 + (1 # 2))%Q).
    pose proof (Qfloor_le y) as Hfl.
    assert (Hy : (y < inject_Z 1001)%Q) by (subst y; unfold inject_Z; lra).
    pose proof (Qle_lt_trans _ _ _ Hfl Hy) as Hlt.
    rewrite <- Zlt_Qlt in Hlt. lia.
  - assert (Hneg : ~ (0 <= x)%Q).
    { intros H. apply Qle_bool_iff in H. congruence. }
    set (y := (- (x * 10) + (1 # 2))%Q).
    pose proof (Qlt_floor y) as Hfl.
    assert (Hy : (inject_Z 0 < y)%Q) by (subst y; unfold inject_Z; lra).
    pose proof (Qlt_trans _ _ _ Hy Hfl) as Hlt.
    rewrite <- Zlt_Qlt in Hlt. lia.
Qed.

(** X18. The efficiency of a compression result, as [huffmanCompress]
    returns it and as [processFile] leaves it after its adjustment, is never
    above "100.0". *)
Theorem efficiency_at_most_100 (P : Platform) (file : File.t) (r : Result.t) (random : Q) :
  huffmanCompress P (Some file) = Normal r ->
  Result.efficiency r <= 1000 /\
  Result.efficiency (adjustResult r random) <= 1000.
Proof.
  intros Hr.
  assert (Hr' : Result.efficiency r <= 1000).
  { revert Hr. unfold huffmanCompress. cbv zeta.
    destruct (Object_keys _) as [|k1 [|k2 ks]].
    - destruct (buildHuffmanTree _); [|done].
      cbn [buildCodes mbind completion_bind]. intros [= <-].
      cbn [Result.efficiency]. apply toFixed_1_le_1000, calculateEfficiency_le_100.
    - intros [= <-]. cbn [Result.efficiency]. lia.
    - destruct (buildHuffmanTree _); [|done].
      cbn [buildCodes mbind completion_bind]. intros [= <-].
      cbn [Result.efficiency]. apply toFixed_1_le_1000, calculateEfficiency_le_100. }
  split; [done|]. unfold adjustResult.
  destruct (Qle_bool _ 20); [done|].
  cbn [Result.efficiency]. apply toFixed_1_le_1000, calculateEfficiency_le_100.
Qed.

Lemma efficiency_at_most_100_witness :
  let r := Result.mk [7] [] (Some (Node (Some 7) 3 None None)) {[ 7 := ["0"%char] ]}
             3 1 6667 [7; 7; 7] [] 3 0 1 0 1000 true 3 in
  Result.efficiency r <= 1000 /\
  Result.efficiency (adjustResult r (1 # 2)%Q) <= 1000.
Proof.
  apply (efficiency_at_most_100 Reference.platform (File.mk "a.pdf" [7; 7; 7])).
  vm_compute. reflexivity.
Defined.

(** ** Compression followed by decompression, through the container *)

(** X19. For every non-empty byte buffer of a length that an array can
    have, which does not contain the byte 255, or on which the inverse RLE
    transform undoes the forward one, or whose transformed form holds a
    single distinct byte value, and on every platform whose text codec gives
    back the metadata and the tree of the artifact: compressing the buffer
    produces a container, and decompressing that container (header parse,
    bit unpacking, decoding by tree traversal, inverse RLE) returns exactly
    the buffer. This covers buffers of size 1 and buffers with 1, 2 and more
    distinct byte values. *)
Theorem compress_decompress_roundtrip (P : Platform) (file : File.t) (random : Q) :
  let B := File.arrayBuffer file in
  Forall byte_ok B ->
  B <> [] ->
  Z.of_nat (length B) <= MAX_SAFE_INTEGER ->
  255 ∉ B \/
  reverseRLE (preprocessData B) = B \/
  length (Object_keys (buildFrequencyTable (preprocessData B))) = 1%nat ->
  (forall metadata treeData compressed,
      containerParts P file random = Some (metadata, treeData, compressed) ->
      codec_faithful P metadata treeData) ->
  exists container,
    compressToContainer P file random = Some container /\
    forall name, decompressContainer P name container = Some B.
Proof.
  intros B HB Hne Hmax Hrle Hcodec.
  assert (Hrle' : reverseRLE (preprocessData B) = B \/
            length (Object_keys (buildFrequencyTable (preprocessData B))) = 1%nat).
  { destruct Hrle as [H|[H|H]]; [left|by left|by right].
    apply reverseRLE_preprocessData; [done|]. by apply no_sentinel_no_literal. }
  destruct (huffman_roundtrip P file HB Hne Hmax Hrle') as (r & Hr & Hd).
  eapply container_roundtrip; eauto.
  by eapply huffman_roundtrip_tree.
Qed.

Lemma compress_decompress_roundtrip_witness :
  exists container,
    compressToContainer Reference.platform
      (File.mk "a.pdf" [65; 65; 65; 65; 65; 66]) 0%Q = Some container /\
    forall name, decompressContainer Reference.platform name container
                 = Some [65; 65; 65; 65; 65; 66].
Proof.
  apply (compress_decompress_roundtrip Reference.platform
           (File.mk "a.pdf" [65; 65; 65; 65; 65; 66]) 0%Q).
  - literal_bytes.
  - discriminate.
  - vm_compute. discriminate.
  - right. left. vm_compute. reflexivity.
  - intros metadata treeData compressed H. vm_compute in H.
    injection H as <- <- <-. repeat split; vm_compute; reflexivity.
Defined.
